(** * NoMetaDataFree: the scrub worker ([web/src/workers/scrubWorker.ts])

    A shallow embedding of the worker's marker scanner, snapshot builder,
    format dispatch, quality clamp and scrub pipeline, with the properties
    the design document states about them, and of the page that queues the
    files, talks to the worker and presents the results.

    Conventions of the embedding.
    - A [Uint8Array] is a [list Z]; reading an index outside the array
      yields [None] (JavaScript's [undefined]).
    - A JavaScript string is modelled by Rocq's [string]: a sequence of
      8-bit code units, the Latin-1 part of JavaScript's strings.  The
      scanner itself is written over the list of code units of its needle
      and places no bound on them.
    - A JavaScript [number] is a binary64 value, Stdlib's [spec_float].
    - A JavaScript object is a finite map from property names to values.
    - Platform facilities the worker calls (exifr, libheif, canvas, bitmap
      decoding) are fields of a [Platform] record; every call is recorded
      in a trace so that statements can speak about what was invoked. *)

From Stdlib Require Import ZArith Ascii String Floats.SpecFloat.
From stdpp Require Import gmap strings list sorting pretty.

Local Open Scope Z_scope.

(** ** Strings and bytes *)

(** [s.charCodeAt(j)] for a character of [s]. *)
Definition charCode (c : ascii) : Z := Z.of_N (N_of_ascii c).

(** The code units of a string, in order. *)
Definition units (s : string) : list Z := map charCode (list_ascii_of_string s).

(** [bytes[i]] on a typed array: [undefined] outside [0 .. length-1]. *)
Definition u8_get (bytes : list Z) (i : Z) : option Z :=
  if i <? 0 then None else bytes !! Z.to_nat i.

(** [needle.charCodeAt(j) & 0xff].  Past the end [charCodeAt] is [NaN] and
    [NaN & 0xff] is [0]; the scanner never reads there. *)
Definition code_at (needle : list Z) (j : Z) : Z :=
  Z.land (nth (Z.to_nat j) needle 0) 255.

(** ** Marker Scanner *)

Module Scanner.

(** The inner loop of [includesAscii]:
    [for (let j = 1; j < n; j++) if (bytes[i + j] !== ...) { ok = false; break }],
    started at [j]; the result is the final value of [ok].  [fuel] bounds
    the number of iterations. *)
Fixpoint compare_rest (fuel : nat) (bytes needle : list Z) (i j : Z) : bool :=
  match fuel with
  | O => true
  | S fuel' =>
      if j <? Z.of_nat (length needle) then
        if decide (u8_get bytes (i + j) = Some (code_at needle j))
        then compare_rest fuel' bytes needle i (j + 1)
        else false
      else true
  end.

(** The outer loop of [includesAscii]:
    [for (let i = 0; i <= bytes.length - n; i++)], started at [i]. *)
Fixpoint scan_from (fuel : nat) (bytes needle : list Z) (i : Z) : bool :=
  match fuel with
  | O => false
  | S fuel' =>
      if i <=? Z.of_nat (length bytes) - Z.of_nat (length needle) then
        if decide (u8_get bytes i = Some (code_at needle 0)) then
          if compare_rest (length needle) bytes needle i 1 then true
          else scan_from fuel' bytes needle (i + 1)
        else scan_from fuel' bytes needle (i + 1)
      else false
  end.

(** [includesAscii(bytes, needle)], the needle given by its code units.
    The outer loop runs for [i = 0 .. bytes.length - n], at most
    [bytes.length + 1] times, and the inner one fewer than [n] times. *)
Definition includesAscii (bytes : list Z) (needle : list Z) : bool :=
  match needle with
  | [] => true
  | _ => scan_from (S (length bytes)) bytes needle 0
  end.

(** The bytes the scanner looks for: each code unit reduced modulo 256. *)
Definition needle_bytes (needle : list Z) : list Z :=
  map (fun c => c mod 256) needle.

(** [pat] occurs in [bytes] as a contiguous run. *)
Definition occurs (pat bytes : list Z) : Prop :=
  exists pre post, bytes = pre ++ pat ++ post.

(** [pat] sits in [bytes] at offset [k0], from its [from]-th element on. *)
Definition agrees_from (from : nat) (pat bytes : list Z) (k0 : nat) : Prop :=
  forall k, (from <= k < length pat)%nat -> bytes !! (k0 + k)%nat = Some (nth k pat 0).

End Scanner.

(** ** JavaScript values *)

(** A binary64 number. *)
Definition number : Set := spec_float.

(** The values a metadata parser can hand back.  Arrays are objects whose
    property names are their indices. *)
#[warnings="-register-all"] Inductive jsval : Type :=
  | JUndefined
  | JNull
  | JBool (b : bool)
  | JNumber (x : number)
  | JString (s : string)
  | JObject (props : gmap string jsval).

(** Truthiness, as used by [parsed && ...]. *)
Definition truthy (v : jsval) : bool :=
  match v with
  | JUndefined | JNull => false
  | JBool b => b
  | JNumber (S754_zero _) | JNumber S754_nan => false
  | JNumber _ => true
  | JString s => negb (String.eqb s "")
  | JObject _ => true
  end.

(** [typeof v === 'object'] and [typeof v === 'number']. *)
Definition typeof_object (v : jsval) : bool :=
  match v with JNull | JObject _ => true | _ => false end.

Definition typeof_number (v : jsval) : bool :=
  match v with JNumber _ => true | _ => false end.

(** Property read [v.name] (own properties; none of the names the worker
    reads is inherited). *)
Definition get_prop (v : jsval) (name : string) : jsval :=
  match v with
  | JObject props => default JUndefined (props !! name)
  | _ => JUndefined
  end.

(** Nullish coalescing [a ?? b]. *)
Definition coalesce (a b : jsval) : jsval :=
  match a with JUndefined | JNull => b | _ => a end.

Infix "??" := coalesce (at level 45, right associativity).

(** [Object.keys(v)]: the property names, each once.  The enumeration order
    of the names is the map's; [sort] below makes the result independent
    of it ([js_sort_unique]). *)
Definition Object_keys (v : jsval) : list string :=
  match v with
  | JObject props => (map_to_list props).*1
  | _ => []
  end.

(** The default comparison of [Array.prototype.sort]: strings ordered by
    their code units, a proper prefix first. *)
Fixpoint units_leb (a b : list Z) : bool :=
  match a, b with
  | [], _ => true
  | _ :: _, [] => false
  | x :: a', y :: b' =>
      if x <? y then true else if y <? x then false else units_leb a' b'
  end.

Definition str_le (a b : string) : Prop := units_leb (units a) (units b) = true.

#[global] Instance str_le_dec : RelDecision str_le.
Proof. intros a b. unfold str_le. apply _. Defined.

(** [keys.sort()] with the default comparison. *)
Definition js_sort (keys : list string) : list string := merge_sort str_le keys.

(** ** Numbers: [Math.max] and [Math.min] *)

Module JsMath.

Definition is_nan (x : number) : bool :=
  match x with S754_nan => true | _ => false end.

Definition is_pos_zero (x : number) : bool :=
  match x with S754_zero false => true | _ => false end.

Definition is_neg_zero (x : number) : bool :=
  match x with S754_zero true => true | _ => false end.

(** The loop of [Math.max]: a [NaN] argument gives [NaN]; [+0] replaces a
    running [-0]; a larger argument replaces the running maximum. *)
Fixpoint max_loop (highest : number) (args : list number) : number :=
  match args with
  | [] => highest
  | x :: rest =>
      if is_nan x then S754_nan
      else if is_pos_zero x && is_neg_zero highest then max_loop x rest
      else if SFltb highest x then max_loop x rest
      else max_loop highest rest
  end.

Definition max (args : list number) : number := max_loop (S754_infinity true) args.

(** The loop of [Math.min], symmetric. *)
Fixpoint min_loop (lowest : number) (args : list number) : number :=
  match args with
  | [] => lowest
  | x :: rest =>
      if is_nan x then S754_nan
      else if is_neg_zero x && is_pos_zero lowest then min_loop x rest
      else if SFltb x lowest then min_loop x rest
      else min_loop lowest rest
  end.

Definition min (args : list number) : number := min_loop (S754_infinity false) args.

(** The literals [0] and [1]. *)
Definition zero : number := S754_zero false.
Definition one : number := S754_finite false 4503599627370496 (-52).

End JsMath.

(** [Math.min(1, Math.max(0, quality))], the encoder quality of [scrub]. *)
Definition clampQuality (quality : number) : number :=
  JsMath.min [JsMath.one; JsMath.max [JsMath.zero; quality]].

(** [x] lies in the closed interval [[0, 1]]. *)
Definition in_unit_interval (x : number) : Prop :=
  SFleb JsMath.zero x = true /\ SFleb x JsMath.one = true.

(** ** Snapshots, requests and responses *)

Record Gps := { latitude : jsval; longitude : jsval }.

(** [Verification].  [gps] is [None] while the property was never
    assigned; each of the other optional fields holds the value a read of
    it yields, [JUndefined] while absent. *)
Record Verification := {
  hasExif : bool;
  hasXmp : bool;
  hasIptc : bool;
  exifKeys : list string;
  gps : option Gps;
  dateTimeOriginal : jsval;
  make : jsval;
  model : jsval;
  software : jsval
}.

Inductive OutputType := ImageJpeg | ImagePng | ImageWebp.

Definition mime_of (t : OutputType) : string :=
  match t with
  | ImageJpeg => "image/jpeg"
  | ImagePng => "image/png"
  | ImageWebp => "image/webp"
  end.

Record ScrubRequest := {
  req_id : string;
  req_fileName : string;
  req_mimeType : string;
  req_bytes : list Z;
  req_outputType : OutputType;
  req_quality : number
}.

(** [ScrubResponse]: the [ok: true] and the [ok: false] variant. *)
Inductive ScrubResponse :=
  | ScrubOk (id : string) (cleanedBytes : list Z) (cleanedMimeType : string)
            (before after : Verification)
  | ScrubFailed (id : string) (error : string).

Definition resp_id (r : ScrubResponse) : string :=
  match r with ScrubOk id _ _ _ _ => id | ScrubFailed id _ => id end.

Definition resp_ok (r : ScrubResponse) : bool :=
  match r with ScrubOk _ _ _ _ _ => true | ScrubFailed _ _ => false end.

(** ** Effects: exceptions and the trace of platform calls *)

(** A thrown value: an [Error] with its message, or any other value with
    the text [String(e)] gives for it. *)
Inductive thrown :=
  | ThrownError (message : string)
  | ThrownOther (text : string).

(** [e instanceof Error ? e.message : String(e)]. *)
Definition error_text (e : thrown) : string :=
  match e with ThrownError m => m | ThrownOther t => t end.

Inductive outcome (A : Type) :=
  | Returned (a : A)
  | Threw (e : thrown).
Arguments Returned {A} a.
Arguments Threw {A} e.

(** The options object passed to [exifr.parse]. *)
Record ExifrOptions := {
  translateKeys : bool;
  mergeOutput : bool;
  opt_tiff : bool;
  opt_exif : bool;
  opt_gps : bool;
  opt_iptc : bool;
  opt_xmp : bool
}.

Record ImageData := { id_width : Z; id_height : Z; id_data : list Z }.
Record ImageBitmap := { bm_width : Z; bm_height : Z; bm_data : list Z }.
Record Canvas := { cv_width : Z; cv_height : Z; cv_data : list Z }.
Record Blob := { blob_bytes : list Z; blob_type : string }.

(** An image item of a HEIF container: [get_width()], [get_height()] and
    [display(imgData, cb)], which hands [cb] the filled image data or
    nothing. *)
Record HeifImage := {
  get_width : Z;
  get_height : Z;
  display : ImageData -> option ImageData
}.

Inductive event :=
  | EvExifrParse (bytes : list Z) (opts : ExifrOptions)
  | EvHeifDecode (bytes : list Z)
  | EvCreateImageBitmap (bytes : list Z) (mimeType : string)
  | EvConvertToBlob (type : OutputType) (quality : number).

(** What the worker's environment does when called. *)
Record Platform := {
  exifr_parse : list Z -> ExifrOptions -> outcome jsval;
  heif_decode : list Z -> outcome (option (list HeifImage));
  new_OffscreenCanvas : Z -> Z -> outcome Canvas;
  getContext2d : Canvas -> bool;
  createImageBitmap : list Z -> string -> outcome ImageBitmap;
  convertToBlob : Canvas -> OutputType -> number -> outcome Blob
}.

(** A computation: the platform calls it made, and how it ended. *)
Definition M (A : Type) : Type := list event * outcome A.

#[global] Instance M_ret : MRet M := fun A a => ([], Returned a).

#[global] Instance M_bind : MBind M := fun A B f m =>
  match m with
  | (t, Returned a) => let '(t', r) := f a in (t ++ t', r)
  | (t, Threw e) => (t, Threw e)
  end.

Definition throw {A} (e : thrown) : M A := ([], Threw e).

(** [try { m } catch (e) { h e }]. *)
Definition try_catch {A} (m : M A) (h : thrown -> M A) : M A :=
  match m with
  | (t, Threw e) => let '(t', r) := h e in (t ++ t', r)
  | _ => m
  end.

(** A platform call that is recorded, and one that is not. *)
Definition call {A} (ev : event) (r : outcome A) : M A := ([ev], r).
Definition quiet {A} (r : outcome A) : M A := ([], r).

Definition trace {A} (m : M A) : list event := m.1.
Definition result {A} (m : M A) : outcome A := m.2.

(** ** String methods used by the dispatch *)

(** [toLowerCase] on one code unit of the Latin-1 range: [A-Z] and the
    accented capitals U+00C0..U+00DE (without the multiplication sign). *)
Definition lower_ascii (c : ascii) : ascii :=
  let n := charCode c in
  if (65 <=? n) && (n <=? 90) || (192 <=? n) && (n <=? 222) && negb (n =? 215)
  then ascii_of_N (Z.to_N (n + 32))
  else c.

Fixpoint toLowerCase (s : string) : string :=
  match s with
  | EmptyString => EmptyString
  | String c s' => String (lower_ascii c) (toLowerCase s')
  end.

(** [s.endsWith(suffix)]: the last [suffix.length] code units of [s] are
    compared with [suffix]; [false] when [s] is shorter. *)
Definition endsWith (s suffix : string) : bool :=
  let start := Z.of_nat (String.length s) - Z.of_nat (String.length suffix) in
  if start <? 0 then false
  else String.eqb (substring (Z.to_nat start) (String.length suffix) s) suffix.

(** [s.includes(sub)]: [sub] is tried at every position of [s] in turn. *)
Fixpoint includes (s sub : string) : bool :=
  if String.prefix sub s then true
  else match s with
       | EmptyString => false
       | String _ s' => includes s' sub
       end.

(** ** The worker *)

Import Scanner.

(** [verify]: the marker scan alone. *)
Definition verify (bytes : list Z) : Verification :=
  let u8 := bytes in
  let hasXmp :=
    includesAscii u8 (units "<x:xmpmeta") ||
    includesAscii u8 (units "http://ns.adobe.com/xap/1.0/") ||
    includesAscii u8 (units "http://purl.org/dc/elements/1.1/") in
  let hasIptc :=
    includesAscii u8 (units "Photoshop 3.0") ||
    includesAscii u8 (units "IPTC") ||
    includesAscii u8 (units "8BIM") in
  {| hasExif := includesAscii u8 (units "Exif");
     hasXmp := hasXmp;
     hasIptc := hasIptc;
     exifKeys := [];
     gps := None;
     dateTimeOriginal := JUndefined;
     make := JUndefined;
     model := JUndefined;
     software := JUndefined |}.

Definition exifr_options : ExifrOptions :=
  {| translateKeys := false; mergeOutput := true;
     opt_tiff := true; opt_exif := true; opt_gps := true;
     opt_iptc := false; opt_xmp := false |}.

(** The body of [if (parsed && typeof parsed === 'object') { ... }] in
    [verifyDeep]: the assignments to [base]. *)
Definition fill_from_parsed (base : Verification) (parsed : jsval) : Verification :=
  let keys := js_sort (Object_keys parsed) in
  let lat := get_prop parsed "GPSLatitude" ?? get_prop parsed "latitude" in
  let lon := get_prop parsed "GPSLongitude" ?? get_prop parsed "longitude" in
  {| hasExif := hasExif base || (0 <? Z.of_nat (length keys));
     hasXmp := hasXmp base;
     hasIptc := hasIptc base;
     exifKeys := keys;
     gps := if typeof_number lat || typeof_number lon
            then Some {| latitude := lat; longitude := lon |}
            else gps base;
     dateTimeOriginal :=
       get_prop parsed "DateTimeOriginal" ?? get_prop parsed "DateTime"
         ?? get_prop parsed "Date/Time Original";
     make := get_prop parsed "Make" ?? get_prop parsed "make";
     model := get_prop parsed "Model" ?? get_prop parsed "model";
     software := get_prop parsed "Software" ?? get_prop parsed "software" |}.

Section Worker.

Context (P : Platform).

(** [verifyDeep]. *)
Definition verifyDeep (bytes : list Z) : M Verification :=
  let base := verify bytes in
  try_catch
    (parsed ← call (EvExifrParse bytes exifr_options)
                   (exifr_parse P bytes exifr_options);
     if truthy parsed && typeof_object parsed
     then mret (fill_from_parsed base parsed)
     else mret base)
    (fun _ => mret base).

(** [isHeicLike]. *)
Definition isHeicLike (fileName mimeType : string) : bool :=
  let n := toLowerCase fileName in
  let m := toLowerCase mimeType in
  endsWith n ".heic" ||
  endsWith n ".heif" ||
  endsWith n ".avif" ||
  includes m "heic" ||
  includes m "heif" ||
  includes m "avif".

(** [ctx.createImageData(width, height)]: transparent black. *)
Definition createImageData (width height : Z) : ImageData :=
  {| id_width := width; id_height := height;
     id_data := replicate (Z.to_nat (4 * width * height)) 0 |}.

(** [decodeHeicToImageData]. *)
Definition decodeHeicToImageData (bytes : list Z) : M ImageData :=
  data ← call (EvHeifDecode bytes) (heif_decode P bytes);
  match data with
  | None | Some [] => throw (ThrownError "HEIC decode failed: no images found")
  | Some (image :: _) =>
      let width := get_width image in
      let height := get_height image in
      canvas ← quiet (new_OffscreenCanvas P width height);
      if negb (getContext2d P canvas)
      then throw (ThrownError "Failed to create canvas context")
      else
        let imgData := createImageData width height in
        match display image imgData with
        | None => throw (ThrownError "HEIC processing error")
        | Some shown => mret shown
        end
  end.

(** The canvas the image is drawn on: the immediately invoked function in
    [scrub]. *)
Definition decode_to_canvas (req : ScrubRequest) : M Canvas :=
  if isHeicLike (req_fileName req) (req_mimeType req) then
    imgData ← decodeHeicToImageData (req_bytes req);
    c ← quiet (new_OffscreenCanvas P (id_width imgData) (id_height imgData));
    if negb (getContext2d P c)
    then throw (ThrownError "Failed to create canvas context")
    else mret {| cv_width := cv_width c; cv_height := cv_height c;
                 cv_data := id_data imgData |}
  else
    bitmap ← call (EvCreateImageBitmap (req_bytes req) (req_mimeType req))
                  (createImageBitmap P (req_bytes req) (req_mimeType req));
    c ← quiet (new_OffscreenCanvas P (bm_width bitmap) (bm_height bitmap));
    if negb (getContext2d P c)
    then throw (ThrownError "Failed to create canvas context")
    else mret {| cv_width := cv_width c; cv_height := cv_height c;
                 cv_data := bm_data bitmap |}.

(** The [try] block of [scrub]. *)
Definition scrub_try (req : ScrubRequest) : M ScrubResponse :=
  before ← verifyDeep (req_bytes req);
  canvas ← decode_to_canvas req;
  let quality := clampQuality (req_quality req) in
  out ← call (EvConvertToBlob (req_outputType req) quality)
             (convertToBlob P canvas (req_outputType req) quality);
  let cleanedBytes := blob_bytes out in
  after ← verifyDeep cleanedBytes;
  mret (ScrubOk (req_id req) cleanedBytes
          (if String.eqb (blob_type out) "" then mime_of (req_outputType req)
           else blob_type out)
          before after).

(** [scrub]: the [try] block, and the [catch] that turns what was thrown
    into the [ok: false] response. *)
Definition scrub (req : ScrubRequest) : M ScrubResponse :=
  try_catch (scrub_try req)
    (fun e => mret (ScrubFailed (req_id req) (error_text e))).

End Worker.

(** ** Derived notions used in the statements *)

(** The snapshot [verifyDeep] returns, by the way [exifr.parse] ended. *)
Definition snapshot (bytes : list Z) (parse : outcome jsval) : Verification :=
  match parse with
  | Returned parsed =>
      if truthy parsed && typeof_object parsed
      then fill_from_parsed (verify bytes) parsed
      else verify bytes
  | Threw _ => verify bytes
  end.

(** The parse produced no tag: it threw, or gave back something that is
    not an object with at least one property. *)
Definition yields_nothing (parse : outcome jsval) : Prop :=
  match parse with
  | Returned (JObject props) => props = ∅
  | _ => True
  end.

(** Suffixes and substrings of strings. *)
Definition has_suffix (s suffix : string) : Prop := exists pre, s = pre +:+ suffix.

Definition has_substring (s sub : string) : Prop :=
  exists pre post, s = pre +:+ sub +:+ post.

Definition heic_rule (fileName mimeType : string) : Prop :=
  has_suffix (toLowerCase fileName) ".heic" \/
  has_suffix (toLowerCase fileName) ".heif" \/
  has_suffix (toLowerCase fileName) ".avif" \/
  has_substring (toLowerCase mimeType) "heic" \/
  has_substring (toLowerCase mimeType) "heif" \/
  has_substring (toLowerCase mimeType) "avif".

Definition mentions_heic (s : string) : Prop :=
  has_substring (toLowerCase s) "heic" \/
  has_substring (toLowerCase s) "heif" \/
  has_substring (toLowerCase s) "avif".

Definition substring_rule (fileName mimeType : string) : Prop :=
  mentions_heic fileName \/ mentions_heic mimeType.

Definition routed_heic (P : Platform) (req : ScrubRequest) : Prop :=
  exists bytes, EvHeifDecode bytes ∈ trace (scrub P req).

Definition routed_native (P : Platform) (req : ScrubRequest) : Prop :=
  exists bytes mimeType, EvCreateImageBitmap bytes mimeType ∈ trace (scrub P req).

(** ** Sample platform and requests *)

Module Sample.

(** A platform with a working canvas and encoder, whose HEIF decoder finds
    no image and whose metadata parser reports a position and a maker for
    every non-empty input. *)
Definition platform : Platform :=
  {| exifr_parse := fun bytes _ =>
       match bytes with
       | [] => Returned JUndefined
       | _ => Returned (JObject (<["latitude" := JNumber JsMath.one]>
                                 (<["Make" := JString "Acme"]> ∅)))
       end;
     heif_decode := fun _ => Returned (Some []);
     new_OffscreenCanvas := fun w h =>
       Returned {| cv_width := w; cv_height := h; cv_data := [] |};
     getContext2d := fun _ => true;
     createImageBitmap := fun _ _ =>
       Returned {| bm_width := 1; bm_height := 1; bm_data := [0; 0; 0; 255] |};
     convertToBlob := fun c t _ =>
       Returned {| blob_bytes := cv_data c; blob_type := mime_of t |} |}.

(** The same platform with a metadata parser that always throws. *)
Definition broken_parser : Platform :=
  {| exifr_parse := fun _ _ => Threw (ThrownError "Unknown file format");
     heif_decode := heif_decode platform;
     new_OffscreenCanvas := new_OffscreenCanvas platform;
     getContext2d := getContext2d platform;
     createImageBitmap := createImageBitmap platform;
     convertToBlob := convertToBlob platform |}.

Definition request (fileName mimeType : string) (quality : number) : ScrubRequest :=
  {| req_id := "item-1"; req_fileName := fileName; req_mimeType := mimeType;
     req_bytes := [255; 216; 255; 224]; req_outputType := ImageJpeg;
     req_quality := quality |}.

(** The literals [1.5], [-0.2] and [0.5]. *)
Definition q_1_5 : number := S754_finite false 6755399441055744 (-52).
Definition q_minus_0_2 : number := S754_finite true 7205759403792794 (-55).
Definition q_0_5 : number := S754_finite false 4503599627370496 (-53).

End Sample.

(** The request [req] with another quality. *)
Definition with_quality (req : ScrubRequest) (quality : number) : ScrubRequest :=
  {| req_id := req_id req; req_fileName := req_fileName req;
     req_mimeType := req_mimeType req; req_bytes := req_bytes req;
     req_outputType := req_outputType req; req_quality := quality |}.

(** The request [req] under another file name and MIME type. *)
Definition with_file (req : ScrubRequest) (fileName mimeType : string) : ScrubRequest :=
  {| req_id := req_id req; req_fileName := fileName; req_mimeType := mimeType;
     req_bytes := req_bytes req; req_outputType := req_outputType req;
     req_quality := req_quality req |}.

(** The clamp of the design document: below the interval gives [0], above
    it gives [1], anything else is left as it is. *)
Definition clamp01 (quality : number) : number :=
  if SFleb quality JsMath.zero then JsMath.zero
  else if SFleb JsMath.one quality then JsMath.one
  else quality.

(** What follows the decode in [scrub]: the encoder call and, when it
    succeeds, the second deep verification. *)
Definition encode_trace (P : Platform) (req : ScrubRequest) (decoded : outcome Canvas)
  : list event :=
  match decoded with
  | Returned canvas =>
      EvConvertToBlob (req_outputType req) (clampQuality (req_quality req)) ::
      match convertToBlob P canvas (req_outputType req) (clampQuality (req_quality req)) with
      | Returned out => [EvExifrParse (blob_bytes out) exifr_options]
      | Threw _ => []
      end
  | Threw _ => []
  end.

(** ** Further platforms for concrete runs *)

Module Fixtures.

(** A HEIF image of one pixel whose [display] reports no data. *)
Definition blank_image : HeifImage :=
  {| get_width := 1; get_height := 1; display := fun _ => None |}.

(** The sample platform with a HEIF decoder that finds [blank_image]. *)
Definition undisplayable : Platform :=
  {| exifr_parse := exifr_parse Sample.platform;
     heif_decode := fun _ => Returned (Some [blank_image]);
     new_OffscreenCanvas := new_OffscreenCanvas Sample.platform;
     getContext2d := getContext2d Sample.platform;
     createImageBitmap := createImageBitmap Sample.platform;
     convertToBlob := convertToBlob Sample.platform |}.

(** The sample platform without a 2d canvas context. *)
Definition no_context : Platform :=
  {| exifr_parse := exifr_parse Sample.platform;
     heif_decode := heif_decode Sample.platform;
     new_OffscreenCanvas := new_OffscreenCanvas Sample.platform;
     getContext2d := fun _ => false;
     createImageBitmap := createImageBitmap Sample.platform;
     convertToBlob := convertToBlob Sample.platform |}.

End Fixtures.

(** Some optional field of the snapshot is populated. *)
Definition populated (v : Verification) : Prop :=
  is_Some (gps v) \/ dateTimeOriginal v <> JUndefined \/ make v <> JUndefined \/
  model v <> JUndefined \/ software v <> JUndefined.

(** The call of the encoder is among the events. *)
Definition encoder_called (t : list event) : Prop :=
  exists type quality, EvConvertToBlob type quality ∈ t.

(** ** The worker's message handler *)

(** [self.onmessage]: the response posted for a request, with the buffers
    handed over to the receiver. *)
Definition onmessage (P : Platform) (req : ScrubRequest)
  : M (ScrubResponse * list (list Z)) :=
  res ← scrub P req;
  match res with
  | ScrubOk _ cleanedBytes _ _ _ => mret (res, [cleanedBytes])
  | ScrubFailed _ _ => mret (res, [])
  end.

(** ** The page ([App]) *)

Module App.

(** A [File]: its name, its type, and what [arrayBuffer()] settles with,
    the bytes or a rejection. *)
Record File := { file_name : string; file_type : string; file_read : outcome (list Z) }.

Inductive Status := Pending | Processing | Done | Error.

(** [BatchItem]; an optional field that was never set, or was set to
    [undefined], is [None]. *)
Record BatchItem := {
  it_id : string;
  it_file : File;
  originalUrl : string;
  status : Status;
  it_error : option string;
  it_before : option Verification;
  it_after : option Verification;
  cleanedBlob : option Blob;
  cleanedUrl : option string
}.

(** The state of the component: [items], [outputType], [quality], [busy]
    and [error]. *)
Record State := {
  items : list BatchItem;
  outputType : OutputType;
  quality : number;
  busy : bool;
  error : option string
}.

(** What the page does to its surroundings: object URLs revoked and
    created, and the platform calls of the worker it talks to. *)
Inductive ui_event :=
  | UiRevoke (url : string)
  | UiCreateUrl (blob : Blob)
  | UiWorker (ev : event).

(** [URL.createObjectURL] of the page. *)
Record Browser := { createObjectURL : Blob -> string }.

(** Truthiness of an optional string. *)
Definition truthy_str (o : option string) : bool :=
  match o with
  | Some s => negb (String.eqb s "")
  | None => false
  end.

(** [new Blob([bytes], { type })]: a type with a character outside
    U+0020..U+007E becomes empty, any other is lower-cased. *)
Definition new_Blob (bytes : list Z) (type : string) : Blob :=
  {| blob_bytes := bytes;
     blob_type :=
       if forallb (fun c => (32 <=? c) && (c <=? 126)) (units type)
       then toLowerCase type else "" |}.

(** The counters shown on the buttons. *)
Definition canScrub (st : State) : bool :=
  (0 <? Z.of_nat (length (items st))) && negb (busy st).

Definition is_cleaned (i : BatchItem) : bool :=
  match status i, cleanedBlob i with
  | Done, Some _ => true
  | _, _ => false
  end.

Definition is_processed (i : BatchItem) : bool :=
  match status i with
  | Done | Error => true
  | _ => false
  end.

Definition cleanedCount (its : list BatchItem) : nat := length (List.filter is_cleaned its).

Definition processedCount (its : list BatchItem) : nat :=
  length (List.filter is_processed its).

Definition progressLabel (st : State) : option string :=
  if negb (busy st) then None
  else Some (pretty (processedCount (items st)) +:+ "/" +:+ pretty (length (items st))).

(** The item returned by the callback of [resetOutputs]. *)
Definition reset_item (it : BatchItem) : BatchItem :=
  {| it_id := it_id it; it_file := it_file it; originalUrl := originalUrl it;
     status := Pending; it_error := None; it_before := None; it_after := None;
     cleanedBlob := None; cleanedUrl := None |}.

(** The URLs the callback of [resetOutputs] revokes, item by item. *)
Definition cleaned_urls (its : list BatchItem) : list string :=
  flat_map (fun it => if truthy_str (cleanedUrl it)
                      then match cleanedUrl it with Some u => [u] | None => [] end
                      else []) its.

(** [resetOutputs]. *)
Definition resetOutputs (st : State) : list ui_event * State :=
  (map UiRevoke (cleaned_urls (items st)),
   {| items := map reset_item (items st); outputType := outputType st;
      quality := quality st; busy := busy st; error := None |}).

(** The three updates [onScrub] applies to the item whose id is [id]. *)
Definition mark_processing (id : string) (p : BatchItem) : BatchItem :=
  if String.eqb (it_id p) id then
    {| it_id := it_id p; it_file := it_file p; originalUrl := originalUrl p;
       status := Processing; it_error := it_error p; it_before := it_before p;
       it_after := it_after p; cleanedBlob := cleanedBlob p;
       cleanedUrl := cleanedUrl p |}
  else p.

Definition mark_error (id message : string) (p : BatchItem) : BatchItem :=
  if String.eqb (it_id p) id then
    {| it_id := it_id p; it_file := it_file p; originalUrl := originalUrl p;
       status := Error; it_error := Some message; it_before := it_before p;
       it_after := it_after p; cleanedBlob := cleanedBlob p;
       cleanedUrl := cleanedUrl p |}
  else p.

Definition mark_done (id : string) (before after : Verification) (blob : Blob)
    (url : string) (p : BatchItem) : BatchItem :=
  if String.eqb (it_id p) id then
    {| it_id := it_id p; it_file := it_file p; originalUrl := originalUrl p;
       status := Done; it_error := it_error p; it_before := Some before;
       it_after := Some after; cleanedBlob := Some blob; cleanedUrl := Some url |}
  else p.

(** The request [onScrub] sends for an item whose file was read as
    [bytes]. *)
Definition payload (type : OutputType) (q : number) (it : BatchItem) (bytes : list Z)
  : ScrubRequest :=
  {| req_id := it_id it;
     req_fileName := file_name (it_file it);
     req_mimeType := if String.eqb (file_type (it_file it)) ""
                     then "application/octet-stream" else file_type (it_file it);
     req_bytes := bytes;
     req_outputType := type;
     req_quality := q |}.

(** The promise [onScrub] awaits: it resolves with the first message whose
    id is the item's, and stays pending ([None]) when none arrives. *)
Definition await_reply (id : string) (posted : outcome (ScrubResponse * list (list Z)))
  : option ScrubResponse :=
  match posted with
  | Returned (res, _) => if String.eqb (resp_id res) id then Some res else None
  | Threw _ => None
  end.

(** How an asynchronous handler ends: it runs to its end, it is left by
    a rejection that nothing catches, with the state as it then is, or it
    waits for ever. *)
Inductive ended (A : Type) :=
  | Finished (a : A)
  | Aborted (e : thrown) (a : A)
  | Stalled.
Arguments Finished {A} a.
Arguments Aborted {A} e a.
Arguments Stalled {A}.

(** The loop [for (const it of items)] of [onScrub]: [queue] is what is
    left of the list the handler was created with, [current] the state the
    updates apply to. *)
Fixpoint scrub_queue (B : Browser) (P : Platform) (type : OutputType) (q : number)
    (queue current : list BatchItem) : list ui_event * ended (list BatchItem) :=
  match queue with
  | [] => ([], Finished current)
  | it :: rest =>
      let current := map (mark_processing (it_id it)) current in
      match file_read (it_file it) with
      | Threw e => ([], Aborted e current)
      | Returned bytes =>
          let posted := onmessage P (payload type q it bytes) in
          match await_reply (it_id it) (result posted) with
          | None => (map UiWorker (trace posted), Stalled)
          | Some (ScrubFailed _ message) =>
              let current := map (mark_error (it_id it) message) current in
              let '(t, r) := scrub_queue B P type q rest current in
              (map UiWorker (trace posted) ++ t, r)
          | Some (ScrubOk _ cleanedBytes cleanedMimeType before after) =>
              let blob := new_Blob cleanedBytes cleanedMimeType in
              let url := createObjectURL B blob in
              let current := map (mark_done (it_id it) before after blob url) current in
              let '(t, r) := scrub_queue B P type q rest current in
              (map UiWorker (trace posted) ++ UiCreateUrl blob :: t, r)
          end
      end
  end.

(** [onScrub], for the worker of [workerRef.current] when there is one. *)
Definition onScrub (B : Browser) (worker : option Platform) (st : State)
  : list ui_event * ended State :=
  match items st with
  | [] => ([], Finished st)
  | _ :: _ =>
      match worker with
      | None =>
          ([], Finished {| items := items st; outputType := outputType st;
                           quality := quality st; busy := busy st;
                           error := Some "Worker not initialized" |})
      | Some P =>
          let '(revoked, st1) := resetOutputs st in
          let '(t, r) := scrub_queue B P (outputType st) (quality st)
                           (items st) (items st1) in
          (revoked ++ t,
           match r with
           | Finished its =>
               Finished {| items := its; outputType := outputType st1;
                           quality := quality st1; busy := false;
                           error := error st1 |}
           | Aborted e its =>
               Aborted e {| items := its; outputType := outputType st1;
                            quality := quality st1; busy := true;
                            error := error st1 |}
           | Stalled => Stalled
           end)
      end
  end.

(** [name.replace(/\.[^.]+$/, '')]: the match is tried at every position
    from the left; it succeeds at a dot followed to the end of the name by
    one or more characters other than a dot. *)
Fixpoint no_dot (s : string) : bool :=
  match s with
  | EmptyString => true
  | String c rest => negb (Ascii.eqb c ".") && no_dot rest
  end.

Fixpoint strip_ext (s : string) : string :=
  match s with
  | EmptyString => EmptyString
  | String c rest =>
      if Ascii.eqb c "." && negb (String.eqb rest "") && no_dot rest
      then EmptyString
      else String c (strip_ext rest)
  end.

(** The string holds no dot. *)
Definition dotless (s : string) : Prop := forall a b, s <> a +:+ "." +:+ b.

(** [ext] and the download name [`${base}.clean.${ext}`] of [downloadOne]
    and [downloadZip]. *)
Definition ext_of (blob : Blob) : string :=
  if String.eqb (blob_type blob) "image/png" then "png"
  else if String.eqb (blob_type blob) "image/webp" then "webp"
  else "jpg".

Definition download_name (name : string) (blob : Blob) : string :=
  let base := if String.eqb (strip_ext name) "" then "image" else strip_ext name in
  base +:+ ".clean." +:+ ext_of blob.

(** [downloadOne]: the file offered for download, if any. *)
Definition downloadOne (it : BatchItem) : option (string * Blob) :=
  match cleanedBlob it with
  | None => None
  | Some blob => Some (download_name (file_name (it_file it)) blob, blob)
  end.

(** [downloadZip]: the entries passed to [zip.file], in order; [None] when
    it returns before creating an archive. *)
Definition downloadZip (its : list BatchItem) : option (list (string * list Z)) :=
  let done := List.filter is_cleaned its in
  match done with
  | [] => None
  | _ =>
      Some (flat_map (fun it => match cleanedBlob it with
                                | Some blob =>
                                    [(download_name (file_name (it_file it)) blob,
                                      blob_bytes blob)]
                                | None => []
                                end) done)
  end.

(** [badgeFor]. *)
Record Badge := { text : string; className : string }.

Definition badgeFor (it : BatchItem) : Badge :=
  match status it with
  | Processing => {| text := "Processing"; className := "badge" |}
  | Pending => {| text := "Queued"; className := "badge" |}
  | Error => {| text := "Error"; className := "badge badgeErr" |}
  | Done =>
      match it_after it with
      | None => {| text := "Done"; className := "badge" |}
      | Some after =>
          if negb (hasExif after) && negb (hasXmp after) && negb (hasIptc after)
          then {| text := "Clean"; className := "badge badgeOk" |}
          else {| text := "Not clean"; className := "badge badgeWarn" |}
      end
  end.

(** [keyHighlights]. *)
Definition interesting : list string :=
  ["GPSLatitude"; "GPSLongitude"; "GPSAltitude"; "DateTimeOriginal"; "DateTime";
   "Make"; "Model"; "Software"; "LensModel"; "SerialNumber"; "BodySerialNumber"].

Definition keyHighlights (keys : option (list string)) : list string :=
  match keys with
  | None | Some [] => []
  | Some keys =>
      let picked := List.filter (fun k => bool_decide (k ∈ keys)) interesting in
      match picked with
      | [] => take 12 keys
      | _ => picked
      end
  end.

(** [buildFindings].  The conversion of a value to text inside a template
    literal or [join], and the dash shown for a missing coordinate, are
    given by [Formatting]. *)
Inductive Chip := chipOk | chipWarn.

Record Finding := {
  f_key : string;
  f_title : string;
  f_value : jsval;
  f_why : string;
  f_cls : Chip
}.

Record Formatting := { ToString : jsval -> string; dash : string }.

Definition chip (warn : bool) : Chip := if warn then chipWarn else chipOk.

Definition buildFindings (F : Formatting) (v : option Verification) : list Finding :=
  match v with
  | None => []
  | Some v =>
      let lat := match gps v with Some g => latitude g | None => JUndefined end in
      let lon := match gps v with Some g => longitude g | None => JUndefined end in
      let hasGps :=
        match gps v with
        | Some g => typeof_number (latitude g) || typeof_number (longitude g)
        | None => false
        end in
      let hasTime := truthy (dateTimeOriginal v) in
      let hasDevice := truthy (make v) || truthy (model v) in
      let hasSoftware := truthy (software v) in
      let exifCount := length (exifKeys v) in
      [ {| f_key := "gps"; f_title := "Location (GPS)";
           f_value := if hasGps
                      then JString (ToString F (lat ?? JString (dash F)) +:+ ", " +:+
                                    ToString F (lon ?? JString (dash F)))
                      else JUndefined;
           f_why := "Can reveal where the photo was taken, and link posts to real-world locations.";
           f_cls := chip hasGps |};
        {| f_key := "time"; f_title := "Timestamp";
           f_value := dateTimeOriginal v;
           f_why := "Can reveal when a photo was taken and help build timelines when combined with other clues.";
           f_cls := chip hasTime |};
        {| f_key := "device"; f_title := "Device";
           f_value := JString (String.concat " "
                                 (map (ToString F) (List.filter truthy [make v; model v])));
           f_why := "Can reveal the camera/phone model and sometimes distinguish you from others (profiling/triangulation).";
           f_cls := chip hasDevice |};
        {| f_key := "software"; f_title := "Editing software";
           f_value := software v;
           f_why := "Can reveal what apps touched the file and help correlate files made by the same workflow.";
           f_cls := chip hasSoftware |};
        {| f_key := "exif"; f_title := "EXIF tags";
           f_value := if (0 <? Z.of_nat exifCount)
                      then JString (pretty exifCount +:+ " tag" +:+
                                    (if Nat.eqb exifCount 1 then "" else "s"))
                      else JUndefined;
           f_why := "EXIF is the main bucket for camera metadata (GPS, time, settings, orientation).";
           f_cls := chip (0 <? Z.of_nat exifCount) |};
        {| f_key := "xmp"; f_title := "XMP";
           f_value := if hasXmp v then JString "Detected" else JUndefined;
           f_why := "XMP often stores editing/export history and descriptive fields; it can leak workflow/identity hints.";
           f_cls := chip (hasXmp v) |};
        {| f_key := "iptc"; f_title := "IPTC";
           f_value := if hasIptc v then JString "Detected" else JUndefined;
           f_why := "IPTC can include author/copyright/captions common in professional publishing.";
           f_cls := chip (hasIptc v) |} ]
  end.

(** The item [onScrub] leaves for [it] when the worker answers [res]. *)
Definition settled (B : Browser) (it : BatchItem) (res : outcome ScrubResponse)
  : BatchItem :=
  match res with
  | Returned (ScrubOk _ cleanedBytes cleanedMimeType before after) =>
      let blob := new_Blob cleanedBytes cleanedMimeType in
      {| it_id := it_id it; it_file := it_file it; originalUrl := originalUrl it;
         status := Done; it_error := None; it_before := Some before;
         it_after := Some after; cleanedBlob := Some blob;
         cleanedUrl := Some (createObjectURL B blob) |}
  | Returned (ScrubFailed _ message) =>
      {| it_id := it_id it; it_file := it_file it; originalUrl := originalUrl it;
         status := Error; it_error := Some message; it_before := None;
         it_after := None; cleanedBlob := None; cleanedUrl := None |}
  | Threw _ => reset_item it
  end.

(** The file of the item can be read. *)
Definition readable (it : BatchItem) : Prop :=
  exists bytes, file_read (it_file it) = Returned bytes.

(** The items up to the first one whose file cannot be read. *)
Fixpoint readable_prefix (its : list BatchItem) : list BatchItem :=
  match its with
  | [] => []
  | it :: rest =>
      match file_read (it_file it) with
      | Returned _ => it :: readable_prefix rest
      | Threw _ => []
      end
  end.

(** The response of the worker to the request for an item, when its file
    can be read. *)
Definition response_for (P : Platform) (type : OutputType) (q : number) (it : BatchItem)
  : option (list event * outcome ScrubResponse) :=
  match file_read (it_file it) with
  | Returned bytes => Some (scrub P (payload type q it bytes))
  | Threw _ => None
  end.

(** The events [onScrub] causes for one item: the worker's platform calls,
    then the object URL of the cleaned blob when there is one. *)
Definition item_events (P : Platform) (type : OutputType) (q : number) (it : BatchItem)
  : list ui_event :=
  match response_for P type q it with
  | Some run =>
      map UiWorker (trace run) ++
      match result run with
      | Returned (ScrubOk _ cleanedBytes cleanedMimeType _ _) =>
          [UiCreateUrl (new_Blob cleanedBytes cleanedMimeType)]
      | _ => []
      end
  | None => []
  end.

(** The item [onScrub] leaves for an item it has handled. *)
Definition settled_item (B : Browser) (P : Platform) (type : OutputType) (q : number)
    (it : BatchItem) : BatchItem :=
  match response_for P type q it with
  | Some run => settled B it (result run)
  | None => reset_item it
  end.

(** The effect on one item of the updates [onScrub] makes while it handles
    the item whose id is [id] and whose response is [res]. *)
Definition apply_reply (B : Browser) (id : string) (res : outcome ScrubResponse)
    (p : BatchItem) : BatchItem :=
  match res with
  | Returned (ScrubOk _ cleanedBytes cleanedMimeType before after) =>
      let blob := new_Blob cleanedBytes cleanedMimeType in
      mark_done id before after blob (createObjectURL B blob) (mark_processing id p)
  | Returned (ScrubFailed _ message) => mark_error id message (mark_processing id p)
  | Threw _ => mark_processing id p
  end.

(** The relation between an item before and after a queue of ids has been
    worked off: identity, file and original URL stay; an item whose id is in
    the queue ends done or failed, any other item is untouched. *)
Definition worked_off (ids : list string) (p p' : BatchItem) : Prop :=
  it_id p' = it_id p /\ it_file p' = it_file p /\ originalUrl p' = originalUrl p /\
  (it_id p ∈ ids -> status p' = Done \/ status p' = Error) /\
  (it_id p ∉ ids -> p' = p).

End App.

(** Page states for concrete runs. *)
Module Desk.

Definition browser : App.Browser :=
  {| App.createObjectURL := fun blob => "blob:" +:+ pretty (length (blob_bytes blob)) |}.

Definition item_of (id name type : string) (read : outcome (list Z)) : App.BatchItem :=
  {| App.it_id := id;
     App.it_file := {| App.file_name := name; App.file_type := type;
                       App.file_read := read |};
     App.originalUrl := "blob:original-" +:+ id;
     App.status := App.Pending; App.it_error := None; App.it_before := None;
     App.it_after := None; App.cleanedBlob := None; App.cleanedUrl := None |}.

Definition item (id name type : string) : App.BatchItem :=
  item_of id name type (Returned [255; 216; 255; 224]).

(** Three files; the worker fails on the second, which has no image. *)
Definition state : App.State :=
  {| App.items := [item "1" "beach.jpg" "image/jpeg"; item "2" "burst.heic" "";
                   item "3" "dunes.png" "image/png"];
     App.outputType := ImageJpeg; App.quality := Sample.q_0_5;
     App.busy := false; App.error := None |}.

(** Three files; the second cannot be read. *)
Definition unreadable : App.BatchItem :=
  item_of "2" "gone.jpg" "image/jpeg" (Threw (ThrownError "NotReadableError")).

Definition state_unreadable : App.State :=
  {| App.items := [item "1" "beach.jpg" "image/jpeg"; unreadable;
                   item "3" "dunes.png" "image/png"];
     App.outputType := ImageJpeg; App.quality := Sample.q_0_5;
     App.busy := false; App.error := None |}.

Definition formatting : App.Formatting :=
  {| App.ToString := fun v => match v with JString s => s | _ => "?" end;
     App.dash := "-" |}.

(** An item that was scrubbed to an empty, marker-free output. *)
Definition clean_item : App.BatchItem :=
  {| App.it_id := "3";
     App.it_file := {| App.file_name := "plain.png"; App.file_type := "image/png";
                       App.file_read := Returned [] |};
     App.originalUrl := "blob:original-3";
     App.status := App.Done; App.it_error := None;
     App.it_before := Some (verify []); App.it_after := Some (verify []);
     App.cleanedBlob := Some {| blob_bytes := []; blob_type := "image/png" |};
     App.cleanedUrl := Some "blob:0" |}.

End Desk.

(** * Properties *)

(** Runs of the model on small inputs. *)

Example includesAscii_finds_marker :
  includesAscii [255; 225; 69; 120; 105; 102; 0] (units "Exif") = true.
Proof. reflexivity. Qed.

Example includesAscii_cut_marker :
  includesAscii [255; 225; 69; 120; 105] (units "Exif") = false.
Proof. reflexivity. Qed.

Example includesAscii_reduces_units :
  includesAscii [69; 120] [69 + 256; 120 + 512] = true.
Proof. reflexivity. Qed.

Example isHeicLike_photo : isHeicLike "photo.HEIC" "" = true.
Proof. reflexivity. Qed.

Example isHeicLike_mime : isHeicLike "upload.bin" "image/AVIF" = true.
Proof. reflexivity. Qed.

Example isHeicLike_name_only_inside : isHeicLike "heic.jpg" "image/jpeg" = false.
Proof. reflexivity. Qed.

Example clampQuality_above : clampQuality Sample.q_1_5 = JsMath.one.
Proof. reflexivity. Qed.

Example clampQuality_below : clampQuality Sample.q_minus_0_2 = JsMath.zero.
Proof. reflexivity. Qed.

Example clampQuality_inside : clampQuality Sample.q_0_5 = Sample.q_0_5.
Proof. reflexivity. Qed.

Example clampQuality_negative_zero : clampQuality (S754_zero true) = JsMath.zero.
Proof. reflexivity. Qed.

Example js_sort_keys : js_sort ["b"; "Make"; "a"; "Model"] = ["Make"; "Model"; "a"; "b"].
Proof. reflexivity. Qed.

Example scrub_heic_without_image :
  result (scrub Sample.platform (Sample.request "photo.HEIC" "" Sample.q_0_5)) =
    Returned (ScrubFailed "item-1" "HEIC decode failed: no images found").
Proof. reflexivity. Qed.

Example verifyDeep_parse_throws :
  verifyDeep Sample.broken_parser [255; 225; 69; 120; 105; 102] =
    ([EvExifrParse [255; 225; 69; 120; 105; 102] exifr_options],
     Returned (verify [255; 225; 69; 120; 105; 102])).
Proof. reflexivity. Qed.

Example scrub_parse_throws_still_ok :
  resp_ok <$> (match result (scrub Sample.broken_parser
                               (Sample.request "a.jpg" "image/jpeg" Sample.q_0_5)) with
               | Returned r => Some r
               | Threw _ => None
               end) = Some true.
Proof. reflexivity. Qed.

(** ** Marker Scanner *)

Section ScannerFacts.

Implicit Types (bytes needle pat : list Z) (i j : Z) (k : nat).

Lemma land_255 (c : Z) : Z.land c 255 = c mod 256.
Proof. change 255 with (Z.ones 8). rewrite Z.land_ones by lia. reflexivity. Qed.

Lemma code_at_needle_bytes needle k :
  code_at needle (Z.of_nat k) = nth k (needle_bytes needle) 0.
Proof.
  unfold code_at, needle_bytes. rewrite Nat2Z.id, land_255.
  change 0 with ((fun c => c mod 256) 0) at 2. now rewrite map_nth.
Qed.

Lemma u8_get_nat bytes k : u8_get bytes (Z.of_nat k) = bytes !! k.
Proof.
  unfold u8_get. destruct (Z.ltb_spec (Z.of_nat k) 0); [lia|]. now rewrite Nat2Z.id.
Qed.

Lemma compare_rest_spec needle bytes (k0 : nat) :
  forall fuel (j : nat),
    (length needle - j <= fuel)%nat ->
    compare_rest fuel bytes needle (Z.of_nat k0) (Z.of_nat j) = true <->
    agrees_from j (needle_bytes needle) bytes k0.
Proof.
  unfold agrees_from, needle_bytes. setoid_rewrite length_map.
  induction fuel as [|fuel IH]; intros j Hfuel; simpl.
  - split; [intros _ k Hk; lia | done].
  - destruct (Z.ltb_spec (Z.of_nat j) (Z.of_nat (length needle))) as [Hj|Hj].
    + replace (Z.of_nat k0 + Z.of_nat j) with (Z.of_nat (k0 + j)) by lia.
      rewrite u8_get_nat, code_at_needle_bytes.
      replace (Z.of_nat j + 1) with (Z.of_nat (S j)) by lia.
      case_decide as Hhere.
      * rewrite IH by lia. split.
        -- intros Hrest k Hk. destruct (decide (k = j)) as [->|]; [done|].
           apply Hrest. lia.
        -- intros Hall k Hk. apply Hall. lia.
      * split; [done|]. intros Hall. exfalso. apply Hhere, Hall. lia.
    + split; [intros _ k Hk; lia | done].
Qed.

Lemma scan_from_spec needle bytes :
  needle <> [] ->
  forall fuel (i : nat),
    (Z.of_nat (length bytes) - Z.of_nat (length needle) - Z.of_nat i < Z.of_nat fuel) ->
    scan_from fuel bytes needle (Z.of_nat i) = true <->
    exists k0, (i <= k0)%nat /\ (k0 + length needle <= length bytes)%nat /\
               agrees_from 0 (needle_bytes needle) bytes k0.
Proof.
  intros Hne. induction fuel as [|fuel IH]; intros i Hfuel; simpl.
  - split; [done|]. intros (k0 & ? & ? & _). lia.
  - destruct (Z.leb_spec (Z.of_nat i) (Z.of_nat (length bytes) - Z.of_nat (length needle)))
      as [Hi|Hi].
    + replace (Z.of_nat i + 1) with (Z.of_nat (S i)) by lia.
      rewrite u8_get_nat.
      change (code_at needle 0) with (code_at needle (Z.of_nat 0)).
      rewrite (code_at_needle_bytes needle 0).
      assert (Hstep : (exists k0, (i <= k0)%nat /\ (k0 + length needle <= length bytes)%nat /\
                          agrees_from 0 (needle_bytes needle) bytes k0) <->
                      agrees_from 0 (needle_bytes needle) bytes i \/
                      (exists k0, (S i <= k0)%nat /\ (k0 + length needle <= length bytes)%nat /\
                          agrees_from 0 (needle_bytes needle) bytes k0)).
      { split.
        - intros (k0 & Hk & Hlen & Hag). destruct (decide (k0 = i)) as [->|]; [by left|].
          right. exists k0. repeat split; [lia|done|done].
        - intros [Hag | (k0 & Hk & Hlen & Hag)].
          + exists i. repeat split; [lia|lia|done].
          + exists k0. repeat split; [lia|done|done]. }
      rewrite Hstep. clear Hstep.
      assert (Hsplit : agrees_from 0 (needle_bytes needle) bytes i <->
                bytes !! i = Some (nth 0 (needle_bytes needle) 0) /\
                agrees_from 1 (needle_bytes needle) bytes i).
      { unfold agrees_from, needle_bytes. rewrite length_map. split.
        - intros Hall. split.
          + specialize (Hall 0%nat). rewrite Nat.add_0_r in Hall. apply Hall.
            destruct needle; [done|simpl; lia].
          + intros k Hk. apply Hall. lia.
        - intros [H0 Hrest] k Hk. destruct k as [|k].
          + by rewrite Nat.add_0_r.
          + apply Hrest. lia. }
      rewrite Hsplit. clear Hsplit.
      case_decide as Hfirst.
      * destruct (compare_rest (length needle) bytes needle (Z.of_nat i) 1) eqn:Hrest.
        -- split; [|done]. intros _. left. split; [done|].
           change 1 with (Z.of_nat 1) in Hrest.
           apply compare_rest_spec in Hrest; [done|lia].
        -- rewrite IH by lia. split; [by right|].
           intros [[_ Hag] | Hlater]; [|done]. exfalso.
           change 1 with (Z.of_nat 1) in Hrest.
           apply (compare_rest_spec needle bytes i (length needle) 1) in Hag; [|lia].
           congruence.
      * rewrite IH by lia. split; [by right|].
        intros [[H0 _] | Hlater]; [done|done].
    + split; [done|]. intros (k0 & ? & ? & _). lia.
Qed.

Lemma agrees_occurs pat bytes :
  (exists k0, (k0 + length pat <= length bytes)%nat /\ agrees_from 0 pat bytes k0) <->
  occurs pat bytes.
Proof.
  unfold agrees_from, occurs. split.
  - intros (k0 & Hlen & Hag).
    exists (take k0 bytes), (drop (k0 + length pat) bytes).
    rewrite <- (take_drop k0 bytes) at 1. f_equal.
    rewrite <- (take_drop (length pat) (drop k0 bytes)) at 1.
    rewrite drop_drop. f_equal.
    apply list_eq. intros k.
    destruct (decide (k < length pat)%nat) as [Hk|Hk].
    + rewrite lookup_take_lt by done. rewrite lookup_drop, Hag by lia.
      destruct (nth_lookup_or_length pat k 0) as [Hn|Hn]; [done|lia].
    + rewrite lookup_take_ge by lia. symmetry. apply lookup_ge_None. lia.
  - intros (pre & post & ->). exists (length pre). split.
    + rewrite !length_app. lia.
    + intros k Hk. rewrite lookup_app_r by lia.
      replace (length pre + k - length pre)%nat with k by lia.
      rewrite lookup_app_l by lia.
      destruct (nth_lookup_or_length pat k 0) as [Hn|Hn]; [|lia]. done.
Qed.

(** C2.  [includesAscii] answers [true] exactly when the needle's code
    units, each reduced modulo 256, occur in the bytes as one contiguous
    run.  This holds for a needle given by any code units, hence for every
    string; the empty needle is found in every byte sequence. *)
Theorem includesAscii_iff_occurs (bytes : list Z) :
  (forall needle : list Z,
     includesAscii bytes needle = true <-> occurs (needle_bytes needle) bytes) /\
  (forall s : string,
     includesAscii bytes (units s) = true <-> occurs (needle_bytes (units s)) bytes) /\
  includesAscii bytes (units "") = true.
Proof.
  assert (Hall : forall needle : list Z,
            includesAscii bytes needle = true <-> occurs (needle_bytes needle) bytes).
  { intros needle. destruct (decide (needle = [])) as [->|Hne].
    - split; [|done]. intros _. exists bytes, []. by rewrite app_nil_r.
    - assert (includesAscii bytes needle = scan_from (S (length bytes)) bytes needle 0)
        as -> by (by destruct needle).
      change 0 with (Z.of_nat 0).
      rewrite scan_from_spec by (done || lia).
      rewrite <- agrees_occurs. unfold needle_bytes at 2. rewrite length_map.
      split.
      + intros (k0 & _ & Hlen & Hag). eauto.
      + intros (k0 & Hlen & Hag). exists k0. split; [lia|done]. }
  split; [exact Hall|]. split; [|done]. intros s. apply Hall.
Qed.

End ScannerFacts.

(** ** The order of [sort] *)

Section Order.

Lemma units_leb_total (a b : list Z) : units_leb a b = true \/ units_leb b a = true.
Proof.
  revert b. induction a as [|x a IH]; intros [|y b]; simpl; auto.
  destruct (Z.ltb_spec x y), (Z.ltb_spec y x); auto; lia.
Qed.

Lemma units_leb_trans (a b c : list Z) :
  units_leb a b = true -> units_leb b c = true -> units_leb a c = true.
Proof.
  revert b c. induction a as [|x a IH]; intros [|y b] [|z c]; simpl; try done.
  destruct (Z.ltb_spec x y), (Z.ltb_spec y x), (Z.ltb_spec y z), (Z.ltb_spec z y),
    (Z.ltb_spec x z), (Z.ltb_spec z x); try done; try lia.
  apply IH.
Qed.

Lemma units_leb_antisym (a b : list Z) :
  units_leb a b = true -> units_leb b a = true -> a = b.
Proof.
  revert b. induction a as [|x a IH]; intros [|y b]; simpl; try done.
  destruct (Z.ltb_spec x y), (Z.ltb_spec y x); try done; try lia.
  intros Hab Hba. f_equal; [lia | by apply IH].
Qed.

Lemma charCode_inj (c d : ascii) : charCode c = charCode d -> c = d.
Proof.
  unfold charCode. intros H. apply N2Z.inj in H.
  rewrite <- (ascii_N_embedding c), <- (ascii_N_embedding d). by rewrite H.
Qed.

Lemma units_inj (s t : string) : units s = units t -> s = t.
Proof.
  unfold units. intros H.
  rewrite <- (string_of_list_ascii_of_string s), <- (string_of_list_ascii_of_string t).
  f_equal. revert H. generalize (list_ascii_of_string s), (list_ascii_of_string t).
  induction l as [|c l IH]; intros [|d l']; simpl; try done.
  intros [= Hc Hl]. f_equal; [by apply charCode_inj | by apply IH].
Qed.

#[global] Instance str_le_total : Total str_le.
Proof. intros a b. apply units_leb_total. Qed.

#[global] Instance str_le_trans : Transitive str_le.
Proof. intros a b c. apply units_leb_trans. Qed.

#[global] Instance str_le_antisym : AntiSymm (=) str_le.
Proof. intros a b Hab Hba. apply units_inj. by apply units_leb_antisym. Qed.

(** The order is the lexicographic one: [a] precedes [b] when [a] is a
    prefix of [b], or at the first position where they differ [a] has the
    smaller code unit. *)
Lemma units_leb_lex (a b : list Z) :
  units_leb a b = true <->
  (exists rest, b = a ++ rest) \/
  (exists common x y ra rb, a = common ++ x :: ra /\ b = common ++ y :: rb /\ x < y).
Proof.
  revert b. induction a as [|x a IH]; intros b; simpl.
  - split; [|done]. intros _. left. by exists b.
  - destruct b as [|y b].
    + split; [done|]. intros [[rest ?] | (common & x' & y' & ra & rb & _ & Hb & _)];
        [done | by destruct common].
    + destruct (Z.ltb_spec x y) as [Hxy|Hxy].
      { split; [|done]. intros _. right. by exists [], x, y, a, b. }
      destruct (Z.ltb_spec y x) as [Hyx|Hyx].
      { split; [done|]. intros [[rest [= -> _]] | (common & x' & y' & ra & rb & Ha & Hb & Hlt)];
          [lia|]. destruct common; simplify_eq/=; lia. }
      assert (x = y) as -> by lia. rewrite IH. split.
      * intros [[rest ->] | (common & x' & y' & ra & rb & -> & -> & Hlt)].
        -- left. by exists rest.
        -- right. by exists (y :: common), x', y', ra, rb.
      * intros [[rest [= ->]] | (common & x' & y' & ra & rb & Ha & Hb & Hlt)].
        -- left. by exists rest.
        -- destruct common as [|c common]; simplify_eq/=; [lia|].
           right. by exists common, x', y', ra, rb.
Qed.

(** Any sorted arrangement of the same keys is the one [js_sort] returns:
    the result does not depend on the order in which the keys were
    enumerated, nor on the sorting algorithm. *)
Lemma js_sort_unique (keys sorted : list string) :
  Sorted str_le sorted -> sorted ≡ₚ keys -> sorted = js_sort keys.
Proof.
  intros Hs Hp. apply (Sorted_unique str_le); [done | apply Sorted_merge_sort, _ |].
  unfold js_sort. by rewrite merge_sort_Permutation.
Qed.

Lemma js_sort_sorted (keys : list string) : StronglySorted str_le (js_sort keys).
Proof. apply StronglySorted_merge_sort; apply _. Qed.

Lemma js_sort_perm (keys : list string) : js_sort keys ≡ₚ keys.
Proof. apply merge_sort_Permutation. Qed.

Lemma Object_keys_NoDup (v : jsval) : NoDup (Object_keys v).
Proof. destruct v; simpl; try apply NoDup_nil_2. apply NoDup_fst_map_to_list. Qed.

Lemma elem_of_Object_keys (v : jsval) (k : string) :
  k ∈ Object_keys v <-> exists props, v = JObject props /\ is_Some (props !! k).
Proof.
  destruct v; simpl; try (rewrite elem_of_nil; split; [done | by intros (? & ? & _)]).
  rewrite list_elem_of_fmap. split.
  - intros ([k' x] & -> & Hin). apply elem_of_map_to_list in Hin. eauto.
  - intros (props' & [= <-] & [x Hx]). exists (k, x). split; [done|].
    by apply elem_of_map_to_list.
Qed.

End Order.

(** ** Deep verification *)

Section DeepFacts.

Context (P : Platform).

Lemma verifyDeep_eq (bytes : list Z) :
  verifyDeep P bytes =
    ([EvExifrParse bytes exifr_options],
     Returned (snapshot bytes (exifr_parse P bytes exifr_options))).
Proof.
  unfold verifyDeep, snapshot, call.
  destruct (exifr_parse P bytes exifr_options) as [parsed|e]; simpl; [|done].
  by destruct (truthy parsed && typeof_object parsed).
Qed.

Lemma snapshot_keys (bytes : list Z) (parse : outcome jsval) :
  exifKeys (snapshot bytes parse) =
    match parse with
    | Returned parsed => js_sort (Object_keys parsed)
    | Threw _ => []
    end.
Proof.
  destruct parse as [parsed|e]; simpl; [|done].
  destruct parsed; simpl; try done.
  all: by rewrite ?andb_false_r.
Qed.

End DeepFacts.

Section DeepClaims.

Context (P : Platform).

(** C1.  The snapshot of [verifyDeep] has [hasExif] equal to the OR of the
    scanner finding the marker [Exif] and [exifKeys] being non-empty; so a
    non-empty [exifKeys] forces [hasExif], whatever the scanner found.  The
    keys are exactly the property names of the object the parser returned. *)
Theorem verifyDeep_hasExif_or (bytes : list Z) :
  exists v,
    result (verifyDeep P bytes) = Returned v /\
    hasExif v = includesAscii bytes (units "Exif") || bool_decide (exifKeys v <> []) /\
    (exifKeys v <> [] -> hasExif v = true) /\
    (forall k, k ∈ exifKeys v <->
       exists props, exifr_parse P bytes exifr_options = Returned (JObject props) /\
                     is_Some (props !! k)).
Proof.
  rewrite verifyDeep_eq. eexists. split; [reflexivity|].
  assert (Hor : hasExif (snapshot bytes (exifr_parse P bytes exifr_options)) =
    includesAscii bytes (units "Exif") ||
    bool_decide (exifKeys (snapshot bytes (exifr_parse P bytes exifr_options)) <> [])).
  { unfold snapshot. destruct (exifr_parse P bytes exifr_options) as [parsed|e]; simpl.
    - destruct (truthy parsed && typeof_object parsed); simpl.
      + f_equal. destruct (js_sort (Object_keys parsed)) as [|k keys]; [done|].
        rewrite bool_decide_true by done. apply Z.ltb_lt. rewrite length_cons. lia.
      + by rewrite orb_false_r.
    - by rewrite orb_false_r. }
  split; [exact Hor|]. split.
  - intros Hne. rewrite Hor, (bool_decide_true _ Hne). apply orb_true_r.
  - intros k. rewrite snapshot_keys.
    destruct (exifr_parse P bytes exifr_options) as [parsed|e].
    + rewrite js_sort_perm, elem_of_Object_keys. split.
      * intros (props & -> & Hk). eauto.
      * intros (props & [= ->] & Hk). eauto.
    + rewrite elem_of_nil. split; [done|]. by intros (? & ? & _).
Qed.

(** C6.  In the snapshot of [verifyDeep], [exifKeys] is sorted in the
    lexicographic order of code units (every key precedes all later ones)
    and holds no string twice. *)
Theorem verifyDeep_keys_sorted_nodup (bytes : list Z) :
  exists v,
    result (verifyDeep P bytes) = Returned v /\
    StronglySorted str_le (exifKeys v) /\
    NoDup (exifKeys v).
Proof.
  rewrite verifyDeep_eq. eexists. split; [reflexivity|].
  rewrite snapshot_keys. destruct (exifr_parse P bytes exifr_options) as [parsed|e].
  - split; [apply js_sort_sorted|].
    rewrite js_sort_perm. apply Object_keys_NoDup.
  - split; constructor.
Qed.

(** C8.  In the snapshot of [verifyDeep], [hasXmp] and [hasIptc] are the
    values of the scanner's signature search, those [verify] computed,
    whatever the parser returns; and the parser is only ever called with
    XMP and IPTC parsing switched off. *)
Theorem verifyDeep_xmp_iptc_from_scanner (bytes : list Z) :
  exists v,
    result (verifyDeep P bytes) = Returned v /\
    hasXmp v =
      includesAscii bytes (units "<x:xmpmeta") ||
      includesAscii bytes (units "http://ns.adobe.com/xap/1.0/") ||
      includesAscii bytes (units "http://purl.org/dc/elements/1.1/") /\
    hasIptc v =
      includesAscii bytes (units "Photoshop 3.0") ||
      includesAscii bytes (units "IPTC") ||
      includesAscii bytes (units "8BIM") /\
    hasXmp v = hasXmp (verify bytes) /\
    hasIptc v = hasIptc (verify bytes) /\
    Forall (fun ev => match ev with
                      | EvExifrParse _ opts => opt_xmp opts = false /\ opt_iptc opts = false
                      | _ => True
                      end) (trace (verifyDeep P bytes)).
Proof.
  rewrite verifyDeep_eq. eexists. split; [reflexivity|].
  assert (Hx : hasXmp (snapshot bytes (exifr_parse P bytes exifr_options)) = hasXmp (verify bytes)).
  { unfold snapshot. destruct (exifr_parse P bytes exifr_options) as [parsed|e]; [|done].
    by destruct (truthy parsed && typeof_object parsed). }
  assert (Hi : hasIptc (snapshot bytes (exifr_parse P bytes exifr_options)) = hasIptc (verify bytes)).
  { unfold snapshot. destruct (exifr_parse P bytes exifr_options) as [parsed|e]; [|done].
    by destruct (truthy parsed && typeof_object parsed). }
  rewrite Hx, Hi. repeat split. by repeat constructor.
Qed.

(** C9.  When the parse returns, [gps] is populated exactly when the
    latitude read ([GPSLatitude], else [latitude]) or the longitude read
    ([GPSLongitude], else [longitude]) is a number; it then holds the two
    values read. *)
Theorem verifyDeep_gps_iff_number (bytes : list Z) (parsed : jsval) :
  exifr_parse P bytes exifr_options = Returned parsed ->
  let lat := get_prop parsed "GPSLatitude" ?? get_prop parsed "latitude" in
  let lon := get_prop parsed "GPSLongitude" ?? get_prop parsed "longitude" in
  exists v,
    result (verifyDeep P bytes) = Returned v /\
    (is_Some (gps v) <-> typeof_number lat = true \/ typeof_number lon = true) /\
    (forall g, gps v = Some g -> latitude g = lat /\ longitude g = lon).
Proof.
  intros Hparse lat lon. rewrite verifyDeep_eq, Hparse. eexists. split; [reflexivity|].
  unfold snapshot. destruct (truthy parsed && typeof_object parsed) eqn:Hguard; simpl.
  - fold lat lon. destruct (typeof_number lat || typeof_number lon) eqn:Hnum.
    + split.
      * split; [intros _; by apply orb_true_iff | by eauto].
      * by intros g [= <-].
    + split; [|done]. split; [by intros [? ?]|].
      intros Hor. apply orb_true_iff in Hor. congruence.
  - assert (Hno : forall name, get_prop parsed name = JUndefined).
    { intros name. by destruct parsed. }
    subst lat lon. rewrite !Hno. simpl. split; [|done].
    split; [by intros [? ?] | by intros [?|?]].
Qed.

(** C4.  [verifyDeep] always returns a snapshot and never throws.  Its
    [hasXmp] and [hasIptc] are the scanner's; and when the parse throws or
    yields nothing, [hasExif] is the scanner's too, [exifKeys] is empty and
    no optional field is populated. *)
Theorem verifyDeep_never_raises (bytes : list Z) :
  exists v,
    verifyDeep P bytes = ([EvExifrParse bytes exifr_options], Returned v) /\
    hasXmp v = hasXmp (verify bytes) /\
    hasIptc v = hasIptc (verify bytes) /\
    (yields_nothing (exifr_parse P bytes exifr_options) ->
       hasExif v = hasExif (verify bytes) /\
       exifKeys v = [] /\ gps v = None /\ dateTimeOriginal v = JUndefined /\
       make v = JUndefined /\ model v = JUndefined /\ software v = JUndefined).
Proof.
  rewrite verifyDeep_eq. eexists. split; [reflexivity|].
  unfold snapshot, yields_nothing.
  destruct (exifr_parse P bytes exifr_options) as [parsed|e]; [|by repeat split].
  destruct parsed as [| |b|x|s|props]; simpl; rewrite ?andb_false_r; try by repeat split.
  split; [done|]. split; [done|]. intros ->.
  unfold fill_from_parsed, get_prop, Object_keys. rewrite !lookup_empty, map_to_list_empty.
  simpl. by rewrite orb_false_r.
Qed.

End DeepClaims.

(** ** Dispatch *)

Section StringFacts.

#[local] Arguments String.append !s1 s2 / : simpl nomatch.

Lemma prefix_append (p s : string) :
  String.prefix p s = true <-> exists post, s = p +:+ post.
Proof.
  revert s. induction p as [|c p IH]; intros s.
  - split; [|by destruct s]. intros _. by exists s.
  - destruct s as [|d s]; simpl.
    + split; [done|]. by intros [post ?].
    + destruct (ascii_dec c d) as [->|Hne].
      * rewrite IH. split; intros [post Hs]; exists post; congruence.
      * split; [done|]. intros [post [= ? _]]. done.
Qed.

Lemma includes_unfold (s sub : string) :
  includes s sub =
    if String.prefix sub s then true
    else match s with
         | EmptyString => false
         | String _ s' => includes s' sub
         end.
Proof. by destruct s. Qed.

Lemma includes_spec (s sub : string) :
  includes s sub = true <-> has_substring s sub.
Proof.
  unfold has_substring. induction s as [|c s IH]; rewrite includes_unfold.
  - destruct (String.prefix sub "") eqn:Hp.
    + split; [|done]. intros _. apply prefix_append in Hp as [post Hp].
      by exists "", post.
    + split; [done|]. intros (pre & post & Hs). destruct pre; [|done].
      simpl in Hs. assert (String.prefix sub "" = true); [|congruence].
      apply prefix_append. by exists post.
  - destruct (String.prefix sub (String c s)) eqn:Hp.
    + split; [|done]. intros _. apply prefix_append in Hp as [post Hp].
      by exists "", post.
    + rewrite IH. split.
      * intros (pre & post & ->). by exists (String c pre), post.
      * intros (pre & post & Hs). destruct pre as [|d pre]; simpl in Hs.
        -- assert (String.prefix sub (String c s) = true); [|congruence].
           apply prefix_append. by exists post.
        -- injection Hs as -> ->. by exists pre, post.
Qed.

Lemma length_append (s t : string) :
  String.length (s +:+ t) = (String.length s + String.length t)%nat.
Proof. induction s; simpl; congruence. Qed.

Lemma substring_all (s : string) : substring 0 (String.length s) s = s.
Proof. induction s; simpl; congruence. Qed.

Lemma substring_append_r (pre suf : string) :
  substring (String.length pre) (String.length suf) (pre +:+ suf) = suf.
Proof. induction pre; simpl; [apply substring_all | done]. Qed.

Lemma substring_split (s : string) (k : nat) :
  (k <= String.length s)%nat ->
  s = substring 0 k s +:+ substring k (String.length s - k) s.
Proof.
  revert k. induction s as [|c s IH]; intros [|k] Hk; simpl in *; try lia; try done.
  - f_equal. by rewrite substring_all.
  - f_equal. apply IH. lia.
Qed.

Lemma endsWith_spec (s suffix : string) :
  endsWith s suffix = true <-> has_suffix s suffix.
Proof.
  unfold endsWith, has_suffix.
  destruct (Z.ltb_spec (Z.of_nat (String.length s) - Z.of_nat (String.length suffix)) 0)
    as [Hshort|Hlong].
  - split; [done|]. intros [pre ->]. rewrite length_append in Hshort. lia.
  - rewrite String.eqb_eq.
    replace (Z.to_nat (Z.of_nat (String.length s) - Z.of_nat (String.length suffix)))
      with (String.length s - String.length suffix)%nat by lia.
    split.
    + intros Hsub. exists (substring 0 (String.length s - String.length suffix) s).
      pose proof (substring_split s (String.length s - String.length suffix)) as Hsplit.
      replace (String.length s - (String.length s - String.length suffix))%nat
        with (String.length suffix) in Hsplit by lia.
      rewrite Hsub in Hsplit. apply Hsplit. lia.
    + intros [pre ->]. rewrite length_append.
      replace (String.length pre + String.length suffix - String.length suffix)%nat
        with (String.length pre) by lia.
      apply substring_append_r.
Qed.

Lemma isHeicLike_spec (fileName mimeType : string) :
  isHeicLike fileName mimeType = true <-> heic_rule fileName mimeType.
Proof.
  unfold isHeicLike, heic_rule.
  rewrite !orb_true_iff, !endsWith_spec, !includes_spec. tauto.
Qed.

End StringFacts.

Section ScrubFacts.

Context (P : Platform).

Ltac run := unfold mbind, M_bind, mret, M_ret, call, quiet, throw, try_catch; simpl.

Lemma decode_heic_trace (bytes : list Z) :
  trace (decodeHeicToImageData P bytes) = [EvHeifDecode bytes].
Proof.
  unfold decodeHeicToImageData. run.
  destruct (heif_decode P bytes) as [[[|image rest]|]|e]; simpl; try done.
  destruct (new_OffscreenCanvas P _ _) as [c|e]; simpl; [|done].
  destruct (getContext2d P c); simpl; [|done].
  by destruct (display image _).
Qed.

Lemma decode_to_canvas_trace (req : ScrubRequest) :
  trace (decode_to_canvas P req) =
    if isHeicLike (req_fileName req) (req_mimeType req)
    then [EvHeifDecode (req_bytes req)]
    else [EvCreateImageBitmap (req_bytes req) (req_mimeType req)].
Proof.
  unfold decode_to_canvas.
  destruct (isHeicLike (req_fileName req) (req_mimeType req)).
  - pose proof (decode_heic_trace (req_bytes req)) as Hd.
    destruct (decodeHeicToImageData P (req_bytes req)) as [t [img|e]];
      simpl in Hd; subst t; run; [|done].
    destruct (new_OffscreenCanvas P _ _) as [c|e]; simpl; [|done].
    by destruct (getContext2d P c).
  - run. destruct (createImageBitmap P _ _) as [bm|e]; simpl; [|done].
    destruct (new_OffscreenCanvas P _ _) as [c|e]; simpl; [|done].
    by destruct (getContext2d P c).
Qed.

Lemma scrub_trace (req : ScrubRequest) :
  trace (scrub P req) =
    EvExifrParse (req_bytes req) exifr_options ::
    trace (decode_to_canvas P req) ++
    encode_trace P req (result (decode_to_canvas P req)).
Proof.
  unfold scrub, scrub_try, encode_trace. rewrite verifyDeep_eq.
  destruct (decode_to_canvas P req) as [t [c|e]]; run; [|by rewrite ?app_nil_r].
  destruct (convertToBlob P c _ _) as [out|e]; simpl; [|by rewrite ?app_nil_r].
  rewrite verifyDeep_eq. simpl. by rewrite ?app_nil_r.
Qed.

Lemma scrub_result (req : ScrubRequest) :
  result (scrub P req) =
    match result (scrub_try P req) with
    | Returned r => Returned r
    | Threw e => Returned (ScrubFailed (req_id req) (error_text e))
    end.
Proof. unfold scrub. by destruct (scrub_try P req) as [t [r|e]]. Qed.

Lemma scrub_try_returned (req : ScrubRequest) (r : ScrubResponse) :
  result (scrub_try P req) = Returned r ->
  exists cleanedBytes cleanedMimeType before after,
    r = ScrubOk (req_id req) cleanedBytes cleanedMimeType before after.
Proof.
  unfold scrub_try. rewrite verifyDeep_eq.
  destruct (decode_to_canvas P req) as [t [c|e]]; run; [|done].
  destruct (convertToBlob P c _ _) as [out|e]; simpl; [|done].
  rewrite verifyDeep_eq. simpl. intros [= <-]. eauto.
Qed.

Lemma clampQuality_clamp01 (quality : number) : clampQuality quality = clamp01 quality.
Proof.
  destruct quality as [[]|[]| |[] m e]; try reflexivity.
  cbv [clampQuality clamp01 JsMath.max JsMath.min JsMath.max_loop JsMath.min_loop
       SFleb SFltb SFcompare JsMath.is_nan JsMath.is_pos_zero JsMath.is_neg_zero
       JsMath.zero JsMath.one andb].
  rewrite (Z.compare_antisym e (-52)).
  change (Pos.compare_cont Eq 4503599627370496 m)
    with (Pos.compare_cont (CompOpp Eq) 4503599627370496 m).
  rewrite <- (Pos.compare_cont_antisym m 4503599627370496 Eq).
  destruct (e ?= -52); destruct (Pos.compare_cont Eq m 4503599627370496); reflexivity.
Qed.

Lemma clampQuality_in_range (quality : number) :
  JsMath.is_nan quality = false -> in_unit_interval (clampQuality quality).
Proof.
  rewrite clampQuality_clamp01.
  destruct quality as [[]|[]| |[] m e]; try done.
  intros _.
  cbv [clamp01 in_unit_interval SFleb SFcompare JsMath.zero JsMath.one].
  rewrite (Z.compare_antisym e (-52)).
  change (Pos.compare_cont Eq 4503599627370496 m)
    with (Pos.compare_cont (CompOpp Eq) 4503599627370496 m).
  rewrite <- (Pos.compare_cont_antisym m 4503599627370496 Eq).
  destruct (e ?= -52) eqn:He;
    destruct (Pos.compare_cont Eq m 4503599627370496) eqn:Hm;
    cbn [CompOpp]; rewrite ?He, ?Hm; split; reflexivity.
Qed.

End ScrubFacts.

Section Routing.

Context (P : Platform).

Lemma encode_trace_events (req : ScrubRequest) (decoded : outcome Canvas) :
  Forall (fun ev => match ev with
                    | EvConvertToBlob type quality =>
                        type = req_outputType req /\
                        quality = clampQuality (req_quality req)
                    | EvExifrParse _ _ => True
                    | _ => False
                    end) (encode_trace P req decoded).
Proof.
  unfold encode_trace. destruct decoded as [c|e]; [|constructor].
  constructor; [done|]. destruct (convertToBlob P c _ _); by repeat constructor.
Qed.

Lemma routed_heic_isHeicLike (req : ScrubRequest) :
  routed_heic P req <-> isHeicLike (req_fileName req) (req_mimeType req) = true.
Proof.
  unfold routed_heic. rewrite scrub_trace, decode_to_canvas_trace.
  pose proof (encode_trace_events req (result (decode_to_canvas P req))) as Henc.
  rewrite Forall_forall in Henc. split.
  - intros [bytes Hin]. destruct (isHeicLike _ _); [done|].
    rewrite elem_of_cons, elem_of_app, list_elem_of_singleton in Hin.
    destruct Hin as [?|[?|Hin]]; try done. by apply Henc in Hin.
  - intros ->. exists (req_bytes req). set_solver.
Qed.

Lemma routed_native_isHeicLike (req : ScrubRequest) :
  routed_native P req <-> isHeicLike (req_fileName req) (req_mimeType req) = false.
Proof.
  unfold routed_native. rewrite scrub_trace, decode_to_canvas_trace.
  pose proof (encode_trace_events req (result (decode_to_canvas P req))) as Henc.
  rewrite Forall_forall in Henc. split.
  - intros (bytes & mimeType & Hin). destruct (isHeicLike _ _); [|done].
    rewrite elem_of_cons, elem_of_app, list_elem_of_singleton in Hin.
    destruct Hin as [?|[?|Hin]]; try done. by apply Henc in Hin.
  - intros ->. exists (req_bytes req), (req_mimeType req). set_solver.
Qed.

Lemma scrub_quality_ext (req : ScrubRequest) (a b : number) :
  clampQuality a = clampQuality b ->
  scrub P (with_quality req a) = scrub P (with_quality req b).
Proof.
  intros Hab. unfold scrub, scrub_try, decode_to_canvas. simpl. by rewrite Hab.
Qed.

Lemma clamp01_idempotent (quality : number) : clamp01 (clamp01 quality) = clamp01 quality.
Proof.
  unfold clamp01.
  destruct (SFleb quality JsMath.zero) eqn:Hlow; [done|].
  destruct (SFleb JsMath.one quality) eqn:Hhigh; [done|].
  by rewrite Hlow, Hhigh.
Qed.

Lemma with_quality_same (req : ScrubRequest) : with_quality req (req_quality req) = req.
Proof. by destruct req. Qed.

End Routing.

Section ScrubClaims.

Context (P : Platform).

(** C3, as the code has it.  A request goes to the HEIF decoder exactly
    when its lower-cased file name ends in [.heic], [.heif] or [.avif], or its
    lower-cased MIME type contains [heic], [heif] or [avif]; otherwise it
    goes to the native bitmap decoder.  A file called [photo.HEIC] with an
    empty MIME type goes to the HEIF decoder. *)
Theorem scrub_dispatch_rule (req : ScrubRequest) :
  (routed_heic P req <-> heic_rule (req_fileName req) (req_mimeType req)) /\
  (routed_native P req <-> ~ heic_rule (req_fileName req) (req_mimeType req)) /\
  routed_heic P (with_file req "photo.HEIC" "").
Proof.
  rewrite routed_heic_isHeicLike, routed_native_isHeicLike, <- isHeicLike_spec.
  split; [done|]. split; [symmetry; apply not_true_iff_false|].
  by apply routed_heic_isHeicLike.
Qed.

(** C5.  [scrub] never throws: it returns a response carrying the id of
    the request, which is the [ok: true] record built by the [try] block
    when that block returned, and the [ok: false] record with the message of
    the thrown value when it threw. *)
Theorem scrub_never_throws (req : ScrubRequest) :
  exists t r,
    scrub P req = (t, Returned r) /\
    resp_id r = req_id req /\
    match result (scrub_try P req) with
    | Returned r' =>
        r = r' /\
        exists cleanedBytes cleanedMimeType before after,
          r = ScrubOk (req_id req) cleanedBytes cleanedMimeType before after
    | Threw e => r = ScrubFailed (req_id req) (error_text e)
    end.
Proof.
  pose proof (scrub_result P req) as Hres.
  pose proof (scrub_try_returned P req) as Hok.
  destruct (scrub P req) as [t out]. simpl in Hres. subst out.
  destruct (result (scrub_try P req)) as [r|e].
  - destruct (Hok r eq_refl) as (cb & mt & b & a & ->). exists t. eexists.
    split; [reflexivity|]. split; [done|]. split; [done|]. eauto.
  - exists t. eexists. split; [reflexivity|]. done.
Qed.

(** C7, as the code has it.  For a request whose quality is not [NaN],
    the quality clamped to the interval from 0 to 1 lies in that interval
    and is what the encoder gets: no encoder call of [scrub] carries
    anything else; when the decode succeeds the encoder is called with the
    request's output type and the clamped quality, and its answer at that
    quality decides the response, a success with the bytes of its blob or a
    failure with its error; when the decode fails the encoder is not
    called.  Quality 1.5 gives the response of quality 1 and quality -0.2
    the response of quality 0, and a request answers as the request with
    the clamped quality does: no quality is rejected for being out of
    range. *)
Theorem scrub_quality_clamped (req : ScrubRequest) :
  JsMath.is_nan (req_quality req) = false ->
  in_unit_interval (clamp01 (req_quality req)) /\
  Forall (fun ev => match ev with
                    | EvConvertToBlob type quality =>
                        type = req_outputType req /\
                        quality = clamp01 (req_quality req)
                    | _ => True
                    end) (trace (scrub P req)) /\
  match result (decode_to_canvas P req) with
  | Returned canvas =>
      EvConvertToBlob (req_outputType req) (clamp01 (req_quality req))
        ∈ trace (scrub P req) /\
      match convertToBlob P canvas (req_outputType req) (clamp01 (req_quality req)) with
      | Returned out =>
          exists cleanedMimeType before after,
            result (scrub P req) =
              Returned (ScrubOk (req_id req) (blob_bytes out) cleanedMimeType before after)
      | Threw e =>
          result (scrub P req) = Returned (ScrubFailed (req_id req) (error_text e))
      end
  | Threw e =>
      result (scrub P req) = Returned (ScrubFailed (req_id req) (error_text e)) /\
      ~ encoder_called (trace (scrub P req))
  end /\
  scrub P (with_quality req Sample.q_1_5) = scrub P (with_quality req JsMath.one) /\
  scrub P (with_quality req Sample.q_minus_0_2) = scrub P (with_quality req JsMath.zero) /\
  scrub P (with_quality req (clamp01 (req_quality req))) = scrub P req.
Proof.
  intros Hnan. split; [|split; [|split; [|split; [|split]]]].
  - rewrite <- clampQuality_clamp01. by apply clampQuality_in_range.
  - rewrite scrub_trace, decode_to_canvas_trace.
    constructor; [done|]. apply Forall_app. split.
    + destruct (isHeicLike _ _); by repeat constructor.
    + eapply Forall_impl; [apply encode_trace_events|].
      intros [] Hev; try done. by rewrite <- clampQuality_clamp01.
  - pose proof (decode_to_canvas_trace P req) as Hd.
    rewrite <- clampQuality_clamp01. unfold scrub, scrub_try. rewrite verifyDeep_eq.
    destruct (decode_to_canvas P req) as [td [canvas|e]]; cbn [trace result fst snd] in *;
      unfold mbind, M_bind, mret, M_ret, call, quiet, throw, try_catch; simpl.
    + destruct (convertToBlob P canvas _ _) as [out|e]; simpl;
        rewrite ?verifyDeep_eq; simpl.
      * split; [|eauto]. rewrite ?app_nil_r, !elem_of_cons, !elem_of_app, !elem_of_cons.
        auto.
      * split; [|done]. rewrite ?app_nil_r, !elem_of_cons, !elem_of_app, !elem_of_cons.
        auto.
    + split; [done|]. subst td. intros (type & quality & Hin).
      destruct (isHeicLike _ _);
        repeat (apply elem_of_cons in Hin as [Hin|Hin]; [done|]);
        by apply elem_of_nil in Hin.
  - by apply scrub_quality_ext.
  - by apply scrub_quality_ext.
  - rewrite <- (with_quality_same req) at 3. apply scrub_quality_ext.
    by rewrite !clampQuality_clamp01, clamp01_idempotent.
Qed.

(** C10.  The clamp leaves [NaN] as it is: [Math.min(1, Math.max(0, NaN))]
    is [NaN], which is not in the interval from 0 to 1, and a request of
    quality [NaN] calls the encoder with it; for every other quality the
    clamped value lies in the interval. *)
Theorem clamp_keeps_nan :
  clampQuality S754_nan = S754_nan /\
  ~ in_unit_interval S754_nan /\
  (forall req, Forall (fun ev => match ev with
                                 | EvConvertToBlob _ quality =>
                                     quality = S754_nan /\ ~ in_unit_interval quality
                                 | _ => True
                                 end) (trace (scrub P (with_quality req S754_nan)))) /\
  EvConvertToBlob ImageJpeg S754_nan
    ∈ trace (scrub Sample.platform (Sample.request "a.jpg" "image/jpeg" S754_nan)) /\
  (forall quality, JsMath.is_nan quality = false -> in_unit_interval (clampQuality quality)).
Proof.
  assert (Hout : ~ in_unit_interval S754_nan) by (by intros [? _]).
  split; [done|]. split; [done|]. split; [|split].
  - intros req. rewrite scrub_trace, decode_to_canvas_trace.
    constructor; [done|]. apply Forall_app. split.
    + destruct (isHeicLike _ _); by repeat constructor.
    + eapply Forall_impl; [apply encode_trace_events|].
      intros [] Hev; try done. destruct Hev as [_ ->]. done.
  - vm_compute. set_solver.
  - apply clampQuality_in_range.
Qed.

End ScrubClaims.

(** ** Concrete runs *)

(** C3, as stated, fails: the file name [heic.jpg] contains [heic], yet the
    request is sent to the native bitmap decoder and not to the HEIF
    decoder. *)
Lemma dispatch_substring_rule_fails :
  substring_rule "heic.jpg" "image/jpeg" /\
  ~ routed_heic Sample.platform (Sample.request "heic.jpg" "image/jpeg" Sample.q_0_5) /\
  routed_native Sample.platform (Sample.request "heic.jpg" "image/jpeg" Sample.q_0_5).
Proof.
  split; [|split].
  - left. left. by exists "", ".jpg".
  - rewrite routed_heic_isHeicLike. by vm_compute.
  - rewrite routed_native_isHeicLike. by vm_compute.
Qed.

(** C7, as stated, fails for the quality [NaN]: the encoder is called with
    [NaN], which is not in the interval from 0 to 1. *)
Lemma scrub_quality_nan_not_clamped :
  let req := Sample.request "a.jpg" "image/jpeg" S754_nan in
  EvConvertToBlob (req_outputType req) S754_nan ∈ trace (scrub Sample.platform req) /\
  ~ in_unit_interval S754_nan /\
  Forall (fun ev => match ev with
                    | EvConvertToBlob _ quality => ~ in_unit_interval quality
                    | _ => True
                    end) (trace (scrub Sample.platform req)).
Proof.
  assert (Hout : ~ in_unit_interval S754_nan) by (by intros [? _]).
  intros req.
  assert (Ht : trace (scrub Sample.platform req) =
                 [EvExifrParse [255; 216; 255; 224] exifr_options;
                  EvCreateImageBitmap [255; 216; 255; 224] "image/jpeg";
                  EvConvertToBlob ImageJpeg S754_nan;
                  EvExifrParse [0; 0; 0; 255] exifr_options]) by reflexivity.
  rewrite Ht. split; [|split; [done|]].
  - apply elem_of_cons. right. apply elem_of_cons. right. apply elem_of_cons. by left.
  - by repeat constructor.
Qed.

(** A run of C7: quality 1.5 on the sample platform, where the decode and
    the encoder succeed. *)
Lemma scrub_quality_clamped_witness :
  let P := Sample.platform in
  let req := Sample.request "a.jpg" "image/jpeg" Sample.q_1_5 in
  JsMath.is_nan (req_quality req) = false /\
  (in_unit_interval (clamp01 (req_quality req)) /\
   Forall (fun ev => match ev with
                     | EvConvertToBlob type quality =>
                         type = req_outputType req /\
                         quality = clamp01 (req_quality req)
                     | _ => True
                     end) (trace (scrub P req)) /\
   match result (decode_to_canvas P req) with
   | Returned canvas =>
       EvConvertToBlob (req_outputType req) (clamp01 (req_quality req))
         ∈ trace (scrub P req) /\
       match convertToBlob P canvas (req_outputType req) (clamp01 (req_quality req)) with
       | Returned out =>
           exists cleanedMimeType before after,
             result (scrub P req) =
               Returned (ScrubOk (req_id req) (blob_bytes out) cleanedMimeType before after)
       | Threw e =>
           result (scrub P req) = Returned (ScrubFailed (req_id req) (error_text e))
       end
   | Threw e =>
       result (scrub P req) = Returned (ScrubFailed (req_id req) (error_text e)) /\
       ~ encoder_called (trace (scrub P req))
   end /\
   scrub P (with_quality req Sample.q_1_5) = scrub P (with_quality req JsMath.one) /\
   scrub P (with_quality req Sample.q_minus_0_2) = scrub P (with_quality req JsMath.zero) /\
   scrub P (with_quality req (clamp01 (req_quality req))) = scrub P req).
Proof.
  intros P req. split; [reflexivity|].
  apply (scrub_quality_clamped P req). reflexivity.
Defined.

(** A run of C9: the sample parser reports a numeric [latitude] and no
    longitude, and [gps] is populated. *)
Lemma verifyDeep_gps_iff_number_witness :
  let parsed := JObject (<["latitude" := JNumber JsMath.one]>
                         (<["Make" := JString "Acme"]> ∅)) in
  let lat := get_prop parsed "GPSLatitude" ?? get_prop parsed "latitude" in
  let lon := get_prop parsed "GPSLongitude" ?? get_prop parsed "longitude" in
  exifr_parse Sample.platform [255; 216] exifr_options = Returned parsed /\
  exists v,
    result (verifyDeep Sample.platform [255; 216]) = Returned v /\
    (is_Some (gps v) <-> typeof_number lat = true \/ typeof_number lon = true) /\
    (forall g, gps v = Some g -> latitude g = lat /\ longitude g = lon).
Proof.
  split; [reflexivity|].
  apply (verifyDeep_gps_iff_number Sample.platform [255; 216]). reflexivity.
Defined.

(** * Further properties of the worker *)

Section ScannerMore.

Lemma includesAscii_true_iff (bytes needle : list Z) :
  includesAscii bytes needle = true <-> occurs (needle_bytes needle) bytes.
Proof.
  destruct (decide (needle = [])) as [->|Hne].
  - split; [|done]. intros _. exists bytes, []. by rewrite app_nil_r.
  - assert (includesAscii bytes needle = scan_from (S (length bytes)) bytes needle 0)
      as -> by (by destruct needle).
    change 0 with (Z.of_nat 0).
    rewrite scan_from_spec by (done || lia).
    rewrite <- agrees_occurs. unfold needle_bytes at 2. rewrite length_map.
    split.
    + intros (k0 & _ & Hlen & Hag). eauto.
    + intros (k0 & Hlen & Hag). exists k0. split; [lia|done].
Qed.

Lemma occurs_embedded (pat bytes pre post : list Z) :
  occurs pat bytes -> occurs pat (pre ++ bytes ++ post).
Proof.
  intros (p & q & ->). exists (pre ++ p), (q ++ post). by rewrite <- !app_assoc.
Qed.

Lemma includesAscii_embedded_true (bytes needle pre post : list Z) :
  includesAscii bytes needle = true -> includesAscii (pre ++ bytes ++ post) needle = true.
Proof. rewrite !includesAscii_true_iff. apply occurs_embedded. Qed.

(** X1.  A needle longer than the byte sequence is never found: the outer
    loop of [includesAscii] does not run at all. *)
Theorem includesAscii_needle_too_long (bytes needle : list Z) :
  (length bytes < length needle)%nat -> includesAscii bytes needle = false.
Proof.
  intros Hlen. apply not_true_is_false. rewrite includesAscii_true_iff.
  intros (pre & post & ->). unfold needle_bytes in Hlen.
  rewrite !length_app, length_map in Hlen. lia.
Qed.

(** X2.  What [includesAscii] finds in a byte sequence it also finds in
    every longer sequence that contains it. *)
Theorem includesAscii_embedded (bytes needle pre post : list Z) :
  includesAscii bytes needle = true -> includesAscii (pre ++ bytes ++ post) needle = true.
Proof. apply includesAscii_embedded_true. Qed.

(** X3.  [includesAscii] sees only the low eight bits of the needle's code
    units: two needles that agree modulo 256 give the same answer on every
    byte sequence. *)
Theorem includesAscii_eight_bit (bytes n1 n2 : list Z) :
  needle_bytes n1 = needle_bytes n2 -> includesAscii bytes n1 = includesAscii bytes n2.
Proof.
  intros Heq. apply eq_true_iff_eq. rewrite !includesAscii_true_iff. by rewrite Heq.
Qed.

End ScannerMore.

Ltac run_effects :=
  unfold mbind, M_bind, mret, M_ret, call, quiet, throw, try_catch; simpl.

Section DeepMore.

Context (P : Platform).

Lemma snapshot_hasXmp (bytes : list Z) (parse : outcome jsval) :
  hasXmp (snapshot bytes parse) = hasXmp (verify bytes).
Proof.
  destruct parse as [parsed|e]; simpl; [|done].
  by destruct (truthy parsed && typeof_object parsed).
Qed.

Lemma snapshot_hasIptc (bytes : list Z) (parse : outcome jsval) :
  hasIptc (snapshot bytes parse) = hasIptc (verify bytes).
Proof.
  destruct parse as [parsed|e]; simpl; [|done].
  by destruct (truthy parsed && typeof_object parsed).
Qed.

Lemma snapshot_hasExif_marker (bytes : list Z) (parse : outcome jsval) :
  hasExif (verify bytes) = true -> hasExif (snapshot bytes parse) = true.
Proof.
  intros Hm. destruct parse as [parsed|e]; simpl; [|done].
  destruct (truthy parsed && typeof_object parsed); [|done].
  simpl in *. by rewrite Hm.
Qed.

Lemma verify_flags_embedded (bytes pre post : list Z) :
  (hasExif (verify bytes) = true -> hasExif (verify (pre ++ bytes ++ post)) = true) /\
  (hasXmp (verify bytes) = true -> hasXmp (verify (pre ++ bytes ++ post)) = true) /\
  (hasIptc (verify bytes) = true -> hasIptc (verify (pre ++ bytes ++ post)) = true).
Proof.
  unfold verify. cbn [hasExif hasXmp hasIptc]. rewrite !orb_true_iff.
  pose proof (fun n => includesAscii_embedded_true bytes n pre post) as Hemb.
  repeat split; [apply Hemb | intros [[?|?]|?]; auto ..].
Qed.

(** X4.  Markers survive wrapping: when the bytes are embedded in a longer
    file, [verifyDeep] still reports XMP and IPTC if it did so for the
    bytes alone, and reports EXIF if the scanner found the marker in
    them, whatever the metadata parser does with either input. *)
Theorem verifyDeep_markers_embedded (bytes pre post : list Z) :
  exists v v',
    result (verifyDeep P bytes) = Returned v /\
    result (verifyDeep P (pre ++ bytes ++ post)) = Returned v' /\
    (hasXmp v = true -> hasXmp v' = true) /\
    (hasIptc v = true -> hasIptc v' = true) /\
    (hasExif (verify bytes) = true -> hasExif v' = true).
Proof.
  rewrite !verifyDeep_eq. do 2 eexists. split; [reflexivity|]. split; [reflexivity|].
  rewrite !snapshot_hasXmp, !snapshot_hasIptc.
  destruct (verify_flags_embedded bytes pre post) as (Hexif & Hxmp & Hiptc).
  split; [done|]. split; [done|].
  intros Hm. by apply snapshot_hasExif_marker, Hexif.
Qed.

Lemma coalesce_defined (a b : jsval) :
  a ?? b <> JUndefined -> a <> JUndefined \/ b <> JUndefined.
Proof. destruct a; simpl; auto. Qed.

Lemma get_prop_defined (v : jsval) (name : string) :
  get_prop v name <> JUndefined -> Object_keys v <> [].
Proof.
  destruct v as [| | | | |props]; simpl; try done.
  destruct (props !! name) as [x|] eqn:Hx; simpl; [|done].
  intros _ Hnil. apply fmap_nil_inv, map_to_list_empty_iff in Hnil.
  subst props. by rewrite lookup_empty in Hx.
Qed.

Lemma fill_populated_keys (base : Verification) (parsed : jsval) :
  gps base = None ->
  populated (fill_from_parsed base parsed) -> Object_keys parsed <> [].
Proof.
  intros Hbase. unfold populated, fill_from_parsed. simpl. rewrite Hbase.
  intros [Hgps|[Hf|[Hf|[Hf|Hf]]]].
  - destruct (typeof_number _ || typeof_number _) eqn:Hnum; [|by destruct Hgps].
    apply orb_true_iff in Hnum as [Hnum|Hnum].
    + assert (Hd : get_prop parsed "GPSLatitude" ?? get_prop parsed "latitude" <> JUndefined)
        by (intros Heq; by rewrite Heq in Hnum).
      apply coalesce_defined in Hd as [Hd|Hd]; by eapply get_prop_defined.
    + assert (Hd : get_prop parsed "GPSLongitude" ?? get_prop parsed "longitude" <> JUndefined)
        by (intros Heq; by rewrite Heq in Hnum).
      apply coalesce_defined in Hd as [Hd|Hd]; by eapply get_prop_defined.
  - apply coalesce_defined in Hf as [Hd|Hd]; [by eapply get_prop_defined|].
    apply coalesce_defined in Hd as [Hd|Hd]; by eapply get_prop_defined.
  - apply coalesce_defined in Hf as [Hd|Hd]; by eapply get_prop_defined.
  - apply coalesce_defined in Hf as [Hd|Hd]; by eapply get_prop_defined.
  - apply coalesce_defined in Hf as [Hd|Hd]; by eapply get_prop_defined.
Qed.

Lemma verify_not_populated (bytes : list Z) : ~ populated (verify bytes).
Proof. unfold populated. simpl. intros [[? ?]|[?|[?|[?|?]]]]; done. Qed.

Lemma snapshot_populated_keys (bytes : list Z) (parse : outcome jsval) :
  populated (snapshot bytes parse) ->
  exifKeys (snapshot bytes parse) <> [] /\ hasExif (snapshot bytes parse) = true.
Proof.
  destruct parse as [parsed|e]; simpl; [|by intros ?%verify_not_populated].
  destruct (truthy parsed && typeof_object parsed); [|by intros ?%verify_not_populated].
  intros Hpop. apply fill_populated_keys in Hpop; [|done].
  assert (Hkeys : js_sort (Object_keys parsed) <> []).
  { intros Hnil. apply Hpop. apply Permutation_nil_r. by rewrite <- Hnil, js_sort_perm. }
  split; [done|]. simpl.
  destruct (js_sort (Object_keys parsed)); [done|]. apply orb_true_r.
Qed.

(** X5.  In a snapshot of [verifyDeep], a populated [gps] or a
    [dateTimeOriginal], [make], [model] or [software] other than
    [undefined] comes with at least one EXIF key and with [hasExif]. *)
Theorem verifyDeep_populated_has_keys (bytes : list Z) :
  exists v,
    result (verifyDeep P bytes) = Returned v /\
    (populated v -> exifKeys v <> [] /\ hasExif v = true).
Proof.
  rewrite verifyDeep_eq. eexists. split; [reflexivity|]. apply snapshot_populated_keys.
Qed.

End DeepMore.

Section ScrubMore.

Context (P : Platform).

(** X6.  A request dispatched to the HEIF decoder whose container holds no
    image is answered with the failure [HEIC decode failed: no images
    found]; neither the bitmap decoder nor the encoder is called. *)
Theorem scrub_heic_no_images (req : ScrubRequest) :
  isHeicLike (req_fileName req) (req_mimeType req) = true ->
  heif_decode P (req_bytes req) = Returned None \/
  heif_decode P (req_bytes req) = Returned (Some []) ->
  scrub P req =
    ([EvExifrParse (req_bytes req) exifr_options; EvHeifDecode (req_bytes req)],
     Returned (ScrubFailed (req_id req) "HEIC decode failed: no images found")).
Proof.
  intros Hheic Hdec. unfold scrub, scrub_try, decode_to_canvas, decodeHeicToImageData.
  rewrite verifyDeep_eq, Hheic. run_effects. by destruct Hdec as [-> | ->].
Qed.

(** X7.  When the first image of the container cannot be displayed, the
    request is answered with the failure [HEIC processing error]; later
    images are not tried. *)
Theorem scrub_heic_display_fails (req : ScrubRequest) (image : HeifImage)
    (others : list HeifImage) (canvas : Canvas) :
  isHeicLike (req_fileName req) (req_mimeType req) = true ->
  heif_decode P (req_bytes req) = Returned (Some (image :: others)) ->
  new_OffscreenCanvas P (get_width image) (get_height image) = Returned canvas ->
  getContext2d P canvas = true ->
  display image (createImageData (get_width image) (get_height image)) = None ->
  scrub P req =
    ([EvExifrParse (req_bytes req) exifr_options; EvHeifDecode (req_bytes req)],
     Returned (ScrubFailed (req_id req) "HEIC processing error")).
Proof.
  intros Hheic Hdec Hcanvas Hctx Hshow.
  unfold scrub, scrub_try, decode_to_canvas, decodeHeicToImageData.
  rewrite verifyDeep_eq, Hheic. run_effects. rewrite Hdec. simpl.
  rewrite Hcanvas. simpl. rewrite Hctx. simpl. by rewrite Hshow.
Qed.

Lemma decode_without_context (req : ScrubRequest) :
  (forall canvas, getContext2d P canvas = false) ->
  exists e, result (decode_to_canvas P req) = Threw e.
Proof.
  intros Hctx. unfold decode_to_canvas, decodeHeicToImageData.
  destruct (isHeicLike _ _); run_effects.
  - destruct (heif_decode P _) as [[[|image rest]|]|e]; simpl; eauto.
    destruct (new_OffscreenCanvas P _ _) as [c|e]; simpl; eauto.
    rewrite Hctx. simpl. eauto.
  - destruct (createImageBitmap P _ _) as [bm|e]; simpl; eauto.
    destruct (new_OffscreenCanvas P _ _) as [c|e]; simpl; eauto.
    rewrite Hctx. simpl. eauto.
Qed.

Lemma encode_trace_threw (req : ScrubRequest) (e : thrown) :
  encode_trace P req (Threw e) = [].
Proof. done. Qed.

(** X8.  On a platform that gives no 2d canvas context, every request is
    answered with a failure and the encoder is never called. *)
Theorem scrub_without_2d_context (req : ScrubRequest) :
  (forall canvas, getContext2d P canvas = false) ->
  exists t message,
    scrub P req = (t, Returned (ScrubFailed (req_id req) message)) /\
    ~ encoder_called t.
Proof.
  intros Hctx. destruct (decode_without_context req Hctx) as [e He].
  pose proof (scrub_trace P req) as Ht. rewrite He, encode_trace_threw in Ht.
  rewrite decode_to_canvas_trace, app_nil_r in Ht.
  pose proof (scrub_result P req) as Hr.
  assert (Htry : result (scrub_try P req) = Threw e).
  { unfold scrub_try. rewrite verifyDeep_eq.
    destruct (decode_to_canvas P req) as [t [c|e']]; simpl in He; [done|].
    injection He as ->. by run_effects. }
  rewrite Htry in Hr. destruct (scrub P req) as [t r]. simpl in *. subst.
  do 2 eexists. split; [reflexivity|].
  intros (type & quality & Hin).
  destruct (isHeicLike _ _);
    repeat (apply elem_of_cons in Hin as [Hin|Hin]; [done|]);
    by apply elem_of_nil in Hin.
Qed.

(** X9.  A successful response is built from the platform's answers: [before]
    is the deep verification of the request's bytes, [cleanedBytes] are the
    bytes of the encoder's blob for the decoded canvas, [after] is the deep
    verification of those bytes, and [cleanedMimeType] is the blob's type or,
    when that is empty, the requested output type; it is never empty. *)
Theorem scrub_success_shape (req : ScrubRequest) (t : list event) (id : string)
    (cleanedBytes : list Z) (cleanedMimeType : string) (before after : Verification) :
  scrub P req = (t, Returned (ScrubOk id cleanedBytes cleanedMimeType before after)) ->
  id = req_id req /\
  before = snapshot (req_bytes req) (exifr_parse P (req_bytes req) exifr_options) /\
  after = snapshot cleanedBytes (exifr_parse P cleanedBytes exifr_options) /\
  cleanedMimeType <> "" /\
  exists canvas out,
    result (decode_to_canvas P req) = Returned canvas /\
    convertToBlob P canvas (req_outputType req) (clampQuality (req_quality req))
      = Returned out /\
    cleanedBytes = blob_bytes out /\
    cleanedMimeType =
      (if String.eqb (blob_type out) "" then mime_of (req_outputType req)
       else blob_type out).
Proof.
  unfold scrub, scrub_try. rewrite verifyDeep_eq.
  destruct (decode_to_canvas P req) as [td [canvas|e]]; run_effects; [|done].
  destruct (convertToBlob P canvas _ _) as [out|e] eqn:Henc; simpl; [|done].
  rewrite verifyDeep_eq. simpl. intros [= _ <- <- <- <- <-].
  repeat split; eauto.
  - destruct (String.eqb_spec (blob_type out) "") as [Hempty|Hne]; [|done].
    by destruct (req_outputType req).
  - exists canvas, out. by rewrite Henc.
Qed.

(** X10.  The platform calls of a scrub come in a fixed order: the parser on
    the request's bytes, then exactly one of the two decoders, then at
    most one encoder call, then the parser on the cleaned bytes; the last
    one is made exactly when the response is a success. *)
Theorem scrub_trace_shape (req : ScrubRequest) :
  exists decoder,
    (decoder = EvHeifDecode (req_bytes req) \/
     decoder = EvCreateImageBitmap (req_bytes req) (req_mimeType req)) /\
    let parse_in := EvExifrParse (req_bytes req) exifr_options in
    let encode := EvConvertToBlob (req_outputType req) (clampQuality (req_quality req)) in
    match result (scrub P req) with
    | Returned (ScrubOk _ cleanedBytes _ _ _) =>
        trace (scrub P req) =
          [parse_in; decoder; encode; EvExifrParse cleanedBytes exifr_options]
    | Returned (ScrubFailed _ _) =>
        trace (scrub P req) = [parse_in; decoder] \/
        trace (scrub P req) = [parse_in; decoder; encode]
    | Threw _ => False
    end.
Proof.
  pose proof (decode_to_canvas_trace P req) as Hd.
  exists (if isHeicLike (req_fileName req) (req_mimeType req)
          then EvHeifDecode (req_bytes req)
          else EvCreateImageBitmap (req_bytes req) (req_mimeType req)).
  split; [destruct (isHeicLike _ _); auto|].
  unfold scrub, scrub_try. rewrite verifyDeep_eq.
  destruct (decode_to_canvas P req) as [td [canvas|e]]; simpl in Hd; subst td;
    run_effects.
  - destruct (convertToBlob P canvas _ _) as [out|e]; simpl.
    + rewrite verifyDeep_eq. simpl. by destruct (isHeicLike _ _).
    + right. by destruct (isHeicLike _ _).
  - left. by destruct (isHeicLike _ _).
Qed.

End ScrubMore.

(** Runs of X1 to X3 and X6 to X9. *)

Lemma includesAscii_needle_too_long_witness :
  (length [69; 120; 105] < length (units "Exif"))%nat /\
  includesAscii [69; 120; 105] (units "Exif") = false.
Proof.
  split; [vm_compute; lia|].
  apply (includesAscii_needle_too_long [69; 120; 105] (units "Exif")). vm_compute; lia.
Defined.

Lemma includesAscii_embedded_witness :
  includesAscii [69; 120; 105; 102] (units "Exif") = true /\
  includesAscii ([255; 225] ++ [69; 120; 105; 102] ++ [0; 0]) (units "Exif") = true.
Proof.
  split; [reflexivity|].
  apply (includesAscii_embedded [69; 120; 105; 102] (units "Exif") [255; 225] [0; 0]).
  reflexivity.
Defined.

Lemma includesAscii_eight_bit_witness :
  needle_bytes [325; 120] = needle_bytes [69; 120] /\
  includesAscii [0; 69; 120] [325; 120] = includesAscii [0; 69; 120] [69; 120].
Proof.
  split; [reflexivity|].
  apply (includesAscii_eight_bit [0; 69; 120] [325; 120] [69; 120]). reflexivity.
Defined.

Lemma scrub_heic_no_images_witness :
  scrub Sample.platform (Sample.request "photo.HEIC" "" Sample.q_0_5) =
    ([EvExifrParse [255; 216; 255; 224] exifr_options; EvHeifDecode [255; 216; 255; 224]],
     Returned (ScrubFailed "item-1" "HEIC decode failed: no images found")).
Proof.
  apply (scrub_heic_no_images Sample.platform
           (Sample.request "photo.HEIC" "" Sample.q_0_5)).
  - reflexivity.
  - right. reflexivity.
Defined.

Lemma scrub_heic_display_fails_witness :
  scrub Fixtures.undisplayable (Sample.request "burst.heif" "" Sample.q_0_5) =
    ([EvExifrParse [255; 216; 255; 224] exifr_options; EvHeifDecode [255; 216; 255; 224]],
     Returned (ScrubFailed "item-1" "HEIC processing error")).
Proof.
  apply (scrub_heic_display_fails Fixtures.undisplayable
           (Sample.request "burst.heif" "" Sample.q_0_5)
           Fixtures.blank_image [] {| cv_width := 1; cv_height := 1; cv_data := [] |});
    reflexivity.
Defined.

Lemma scrub_without_2d_context_witness :
  exists t message,
    scrub Fixtures.no_context (Sample.request "a.jpg" "image/jpeg" Sample.q_0_5) =
      (t, Returned (ScrubFailed "item-1" message)) /\
    ~ encoder_called t.
Proof.
  apply (scrub_without_2d_context Fixtures.no_context
           (Sample.request "a.jpg" "image/jpeg" Sample.q_0_5)).
  reflexivity.
Defined.

Lemma scrub_success_shape_witness :
  let req := Sample.request "a.jpg" "image/jpeg" Sample.q_0_5 in
  exists t cleanedBytes cleanedMimeType before after,
    scrub Sample.platform req =
      (t, Returned (ScrubOk "item-1" cleanedBytes cleanedMimeType before after)) /\
    ("item-1" = req_id req /\
     before = snapshot (req_bytes req)
                (exifr_parse Sample.platform (req_bytes req) exifr_options) /\
     after = snapshot cleanedBytes
               (exifr_parse Sample.platform cleanedBytes exifr_options) /\
     cleanedMimeType <> "" /\
     exists canvas out,
       result (decode_to_canvas Sample.platform req) = Returned canvas /\
       convertToBlob Sample.platform canvas (req_outputType req)
         (clampQuality (req_quality req)) = Returned out /\
       cleanedBytes = blob_bytes out /\
       cleanedMimeType =
         (if String.eqb (blob_type out) "" then mime_of (req_outputType req)
          else blob_type out)).
Proof.
  intros req. do 5 eexists. split; [reflexivity|].
  eapply (scrub_success_shape Sample.platform req). reflexivity.
Defined.

(** * Properties of the page *)

Section Orchestrator.

Context (B : App.Browser) (P : Platform).

Lemma scrub_returns (req : ScrubRequest) :
  exists r, result (scrub P req) = Returned r /\ resp_id r = req_id req.
Proof.
  rewrite scrub_result. destruct (result (scrub_try P req)) as [r|e] eqn:Htry.
  - apply scrub_try_returned in Htry as (cb & mt & b & a & ->). eauto.
  - eauto.
Qed.

Lemma onmessage_posts (req : ScrubRequest) :
  exists r transfer,
    result (scrub P req) = Returned r /\ resp_id r = req_id req /\
    onmessage P req = (trace (scrub P req), Returned (r, transfer)).
Proof.
  destruct (scrub_returns req) as (r & Hr & Hid). unfold onmessage.
  destruct (scrub P req) as [t out]. simpl in Hr. subst out.
  destruct r; run_effects; rewrite app_nil_r; eauto.
Qed.

(** X22.  The worker answers every request with one message that carries
    the request's id, so the page's listener for that id accepts it; the
    cleaned bytes are handed over with a success and nothing with a
    failure. *)
Theorem onmessage_answers (req : ScrubRequest) :
  exists r,
    onmessage P req =
      (trace (scrub P req),
       Returned (r, match r with
                    | ScrubOk _ cleanedBytes _ _ _ => [cleanedBytes]
                    | ScrubFailed _ _ => []
                    end)) /\
    resp_id r = req_id req /\
    App.await_reply (req_id req) (result (onmessage P req)) = Some r.
Proof.
  destruct (scrub_returns req) as (r & Hr & Hid). exists r. unfold onmessage.
  destruct (scrub P req) as [t out]. simpl in Hr. subst out.
  destruct r; run_effects; rewrite app_nil_r; cbn in Hid; subst;
    by rewrite String.eqb_refl.
Qed.

Lemma scrub_queue_cons (type : OutputType) (q : number) (it : App.BatchItem)
    (rest current : list App.BatchItem) (bytes : list Z) :
  App.file_read (App.it_file it) = Returned bytes ->
  App.scrub_queue B P type q (it :: rest) current =
    let next := App.scrub_queue B P type q rest
                  (map (App.apply_reply B (App.it_id it)
                          (result (scrub P (App.payload type q it bytes)))) current) in
    (App.item_events P type q it ++ next.1, next.2).
Proof.
  intros Hread.
  destruct (onmessage_posts (App.payload type q it bytes)) as (r & tr & Hr & Hid & Hpost).
  cbn [App.scrub_queue]. rewrite Hread, Hpost. cbn [result trace fst snd App.await_reply].
  rewrite Hid. cbn [req_id App.payload]. rewrite String.eqb_refl.
  unfold App.item_events, App.response_for, App.apply_reply. rewrite Hread, Hr.
  destruct r as [id cb mt b a | id message]; rewrite map_map;
    destruct (App.scrub_queue B P type q rest _) as [t out]; cbn [fst snd];
    by rewrite <- ?app_assoc, ?app_nil_r.
Qed.

Lemma scrub_queue_unreadable (type : OutputType) (q : number) (it : App.BatchItem)
    (rest current : list App.BatchItem) (e : thrown) :
  App.file_read (App.it_file it) = Threw e ->
  App.scrub_queue B P type q (it :: rest) current =
    ([], App.Aborted e (map (App.mark_processing (App.it_id it)) current)).
Proof. intros Hread. cbn [App.scrub_queue]. by rewrite Hread. Qed.

Lemma scrub_queue_events (type : OutputType) (q : number) (queue : list App.BatchItem) :
  forall current,
    (App.scrub_queue B P type q queue current).1 =
      flat_map (App.item_events P type q) (App.readable_prefix queue).
Proof.
  induction queue as [|it rest IH]; intros current; [done|].
  cbn [App.readable_prefix].
  destruct (App.file_read (App.it_file it)) as [bytes|e] eqn:Hread.
  - rewrite (scrub_queue_cons _ _ _ _ _ bytes Hread). cbn [fst flat_map]. by rewrite IH.
  - by rewrite (scrub_queue_unreadable _ _ _ _ _ e Hread).
Qed.

Lemma readable_prefix_all (its : list App.BatchItem) :
  Forall App.readable its -> App.readable_prefix its = its.
Proof.
  induction 1 as [|it rest [bytes Hread] _ IH]; [done|].
  cbn [App.readable_prefix]. by rewrite Hread, IH.
Qed.

Lemma readable_prefix_spec (its : list App.BatchItem) :
  Forall App.readable (App.readable_prefix its) /\
  exists rest, its = App.readable_prefix its ++ rest /\
               match rest with
               | [] => True
               | bad :: _ => ~ App.readable bad
               end.
Proof.
  induction its as [|it rest (Hall & tail & Heq & Hbad)]; cbn [App.readable_prefix].
  - split; [constructor|]. by exists [].
  - destruct (App.file_read (App.it_file it)) as [bytes|e] eqn:Hread.
    + split; [constructor; [by exists bytes|done]|].
      exists tail. split; [by rewrite Heq at 1|done].
    + split; [constructor|]. exists (it :: rest). split; [done|].
      intros [bytes Hb]. congruence.
Qed.

Lemma scrub_queue_stops (type : OutputType) (q : number) (bad : App.BatchItem)
    (post : list App.BatchItem) (e : thrown) (pre : list App.BatchItem) :
  Forall App.readable pre ->
  App.file_read (App.it_file bad) = Threw e ->
  forall current,
  exists its,
    (App.scrub_queue B P type q (pre ++ bad :: post) current).2 = App.Aborted e its.
Proof.
  intros Hread Hbad. induction Hread as [|it rest [bytes Hb] _ IH]; intros current.
  - cbn [app]. rewrite (scrub_queue_unreadable _ _ _ _ _ e Hbad). by eexists.
  - change ((it :: rest) ++ bad :: post) with (it :: (rest ++ bad :: post)).
    rewrite (scrub_queue_cons _ _ _ _ _ bytes Hb). cbn [snd]. apply IH.
Qed.

Lemma apply_reply_other (id : string) (res : outcome ScrubResponse) (p : App.BatchItem) :
  App.it_id p <> id -> App.apply_reply B id res p = p.
Proof.
  intros Hne. apply String.eqb_neq in Hne.
  unfold App.apply_reply, App.mark_done, App.mark_error, App.mark_processing.
  destruct res as [[]|]; by rewrite ?Hne.
Qed.

Lemma mark_processing_other (id : string) (p : App.BatchItem) :
  App.it_id p <> id -> App.mark_processing id p = p.
Proof. intros Hne. apply String.eqb_neq in Hne. unfold App.mark_processing. by rewrite Hne. Qed.

Lemma apply_reply_same (id : string) (r : ScrubResponse) (p : App.BatchItem) :
  App.it_id p = id ->
  App.it_id (App.apply_reply B id (Returned r) p) = id /\
  App.it_file (App.apply_reply B id (Returned r) p) = App.it_file p /\
  App.originalUrl (App.apply_reply B id (Returned r) p) = App.originalUrl p /\
  (App.status (App.apply_reply B id (Returned r) p) = App.Done \/
   App.status (App.apply_reply B id (Returned r) p) = App.Error).
Proof.
  intros <-.
  unfold App.apply_reply, App.mark_done, App.mark_error, App.mark_processing.
  destruct r; rewrite String.eqb_refl; cbn; rewrite String.eqb_refl; cbn; auto.
Qed.

Lemma scrub_queue_worked_off (type : OutputType) (q : number) (queue : list App.BatchItem) :
  Forall App.readable queue ->
  forall current,
  exists final,
    App.scrub_queue B P type q queue current =
      (flat_map (App.item_events P type q) queue, App.Finished final) /\
    Forall2 (App.worked_off (map App.it_id queue)) current final.
Proof.
  induction 1 as [|it rest [bytes Hread] _ IH]; intros current.
  - exists current. split; [done|]. apply Forall_Forall2_diag, Forall_forall.
    intros p _. repeat split; try done. by intros ?%elem_of_nil.
  - rewrite (scrub_queue_cons _ _ _ _ _ bytes Hread).
    destruct (scrub_returns (App.payload type q it bytes)) as (r & Hr & _). rewrite Hr.
    destruct (IH (map (App.apply_reply B (App.it_id it) (Returned r)) current))
      as (final & Hq & Hrel).
    exists final. rewrite Hq. split; [done|].
    change (map (App.apply_reply B (App.it_id it) (Returned r)) current)
      with (App.apply_reply B (App.it_id it) (Returned r) <$> current) in Hrel.
    rewrite Forall2_fmap_l in Hrel. eapply Forall2_impl; [exact Hrel|].
    intros p p' (Hid & Hfile & Hurl & Hin & Hout). cbn [map].
    destruct (decide (App.it_id p = App.it_id it)) as [Heq|Hne].
    + destruct (apply_reply_same (App.it_id it) r p Heq) as (Hid2 & Hfile2 & Hurl2 & Hst).
      rewrite Hid2 in Hid, Hin, Hout. rewrite Hfile2 in Hfile. rewrite Hurl2 in Hurl.
      repeat split; try congruence.
      * intros _. destruct (decide (App.it_id it ∈ map App.it_id rest)) as [Hrest|Hrest].
        -- by apply Hin.
        -- by rewrite (Hout Hrest).
      * intros Hnot. exfalso. apply Hnot. rewrite Heq. apply elem_of_cons. by left.
    + rewrite (apply_reply_other _ _ _ Hne) in Hid, Hfile, Hurl, Hin, Hout.
      repeat split; try done.
      * intros [?|Hrest]%elem_of_cons; [done|]. by apply Hin.
      * intros Hnot. apply Hout. intros Hrest. apply Hnot, elem_of_cons. by right.
Qed.

End Orchestrator.

Section OrchestratorClaims.

Context (B : App.Browser) (P : Platform).

Lemma Forall2_map_eq {A C : Type} (R : A -> A -> Prop) (f : A -> C) (l k : list A) :
  Forall2 R l k -> (forall a b, R a b -> f b = f a) -> map f k = map f l.
Proof.
  intros Hrel Hf. induction Hrel as [|a b l k Hab _ IH]; [done|].
  cbn. by rewrite (Hf a b Hab), IH.
Qed.

Lemma reset_item_id_in (its : list App.BatchItem) :
  Forall (fun p => App.it_id p ∈ map App.it_id its) (map App.reset_item its).
Proof.
  apply Forall_forall. intros p Hp.
  change (map App.reset_item its) with (App.reset_item <$> its) in Hp.
  apply list_elem_of_fmap in Hp as (p0 & -> & Hp0).
  change (map App.it_id its) with (App.it_id <$> its).
  apply list_elem_of_fmap. by exists p0.
Qed.

Lemma processed_all (its : list App.BatchItem) :
  Forall (fun p => App.status p = App.Done \/ App.status p = App.Error) its ->
  App.processedCount its = length its.
Proof.
  unfold App.processedCount. induction 1 as [|p its Hp _ IH]; [done|].
  cbn. unfold App.is_processed at 1. destruct Hp as [-> | ->]; cbn; by rewrite IH.
Qed.

(** X11.  With a worker, at least one item and files that can all be read,
    [onScrub] runs to its end: every awaited response arrives.  It leaves
    [busy] off and [error] cleared, keeps the list, the ids, the files and
    the original URLs as they were, and every item is then done or failed,
    so that the counter of processed items equals the number of items. *)
Theorem onScrub_completes (st : App.State) :
  App.items st <> [] ->
  Forall App.readable (App.items st) ->
  exists t st',
    App.onScrub B (Some P) st = (t, App.Finished st') /\
    App.busy st' = false /\ App.error st' = None /\
    App.outputType st' = App.outputType st /\ App.quality st' = App.quality st /\
    map App.it_id (App.items st') = map App.it_id (App.items st) /\
    map App.it_file (App.items st') = map App.it_file (App.items st) /\
    map App.originalUrl (App.items st') = map App.originalUrl (App.items st) /\
    Forall (fun p => App.status p = App.Done \/ App.status p = App.Error) (App.items st') /\
    App.processedCount (App.items st') = length (App.items st).
Proof.
  intros Hne Hread. unfold App.onScrub, App.resetOutputs.
  destruct (App.items st) as [|it0 rest0] eqn:Hitems; [done|]. rewrite <- Hitems in *.
  destruct (scrub_queue_worked_off B P (App.outputType st) (App.quality st) (App.items st)
              Hread (map App.reset_item (App.items st))) as (final & Hq & Hrel).
  cbn [App.items]. rewrite Hq. do 2 eexists. split; [reflexivity|].
  cbn [App.items App.busy App.error App.outputType App.quality].
  assert (Hid : map App.it_id final = map App.it_id (App.items st)).
  { rewrite (Forall2_map_eq _ App.it_id _ _ Hrel) by (by intros a b (? & _)).
    rewrite map_map. done. }
  assert (Hfile : map App.it_file final = map App.it_file (App.items st)).
  { rewrite (Forall2_map_eq _ App.it_file _ _ Hrel) by (by intros a b (? & ? & _)).
    rewrite map_map. done. }
  assert (Hurl : map App.originalUrl final = map App.originalUrl (App.items st)).
  { rewrite (Forall2_map_eq _ App.originalUrl _ _ Hrel) by (by intros a b (? & ? & ? & _)).
    rewrite map_map. done. }
  assert (Hall : Forall (fun p => App.status p = App.Done \/ App.status p = App.Error) final).
  { pose proof (reset_item_id_in (App.items st)) as Hin.
    clear Hq Hid Hfile Hurl. induction Hrel as [|a b l k Hab _ IH]; [constructor|].
    apply Forall_cons in Hin as [Ha Hl]. constructor; [|by apply IH].
    destruct Hab as (_ & _ & _ & Hdone & _). by apply Hdone. }
  repeat split; try done.
  rewrite (processed_all _ Hall). rewrite <- (length_map App.it_id final), Hid.
  by rewrite length_map.
Qed.

(** X12.  [onScrub] works the items off one at a time in the order of the
    list, and stops at the first file that cannot be read: after the URLs
    revoked by the reset, its events are those of the first item, then
    those of the second, and so on up to the last item before an
    unreadable file, or to the end of the list when every file can be read.
    In the first case it is left by the rejection of that read with [busy]
    still on, in the second it runs to its end.  The events of an item are
    the platform calls of the scrub of its own payload, followed by one
    object URL for the cleaned blob when the scrub succeeded. *)
Theorem onScrub_sequential (st : App.State) :
  App.items st <> [] ->
  exists handled rest,
    App.items st = handled ++ rest /\
    Forall App.readable handled /\
    (App.onScrub B (Some P) st).1 =
      map App.UiRevoke (App.cleaned_urls (App.items st)) ++
      flat_map (App.item_events P (App.outputType st) (App.quality st)) handled /\
    match rest with
    | [] => exists st', (App.onScrub B (Some P) st).2 = App.Finished st'
    | bad :: _ =>
        exists e st',
          App.file_read (App.it_file bad) = Threw e /\
          (App.onScrub B (Some P) st).2 = App.Aborted e st' /\
          App.busy st' = true
    end.
Proof.
  intros Hne.
  destruct (readable_prefix_spec (App.items st)) as (Hall & rest & Heq & Hbad).
  exists (App.readable_prefix (App.items st)), rest.
  split; [done|]. split; [done|].
  pose proof (scrub_queue_events B P (App.outputType st) (App.quality st) (App.items st)
                (map App.reset_item (App.items st))) as Hev.
  assert (Hend : match rest with
                 | [] => exists its,
                     (App.scrub_queue B P (App.outputType st) (App.quality st)
                        (App.items st) (map App.reset_item (App.items st))).2
                     = App.Finished its
                 | bad :: _ => exists e its,
                     App.file_read (App.it_file bad) = Threw e /\
                     (App.scrub_queue B P (App.outputType st) (App.quality st)
                        (App.items st) (map App.reset_item (App.items st))).2
                     = App.Aborted e its
                 end).
  { destruct rest as [|bad post].
    - rewrite app_nil_r in Heq. rewrite <- Heq in Hall.
      destruct (scrub_queue_worked_off B P (App.outputType st) (App.quality st)
                  (App.items st) Hall (map App.reset_item (App.items st)))
        as (final & Hq & _).
      exists final. by rewrite Hq.
    - destruct (App.file_read (App.it_file bad)) as [bytes|e] eqn:Hb.
      { exfalso. apply Hbad. by exists bytes. }
      exists e.
      destruct (scrub_queue_stops B P (App.outputType st) (App.quality st) bad post e
                  (App.readable_prefix (App.items st)) Hall Hb
                  (map App.reset_item (App.items st))) as (its & Hq).
      exists its. split; [done|]. by rewrite Heq at 1. }
  clear Heq Hbad Hall.
  unfold App.onScrub, App.resetOutputs.
  destruct (App.items st) as [|it0 rest0] eqn:Hitems; [done|]. rewrite <- Hitems in *.
  cbn [App.items] in *.
  destruct (App.scrub_queue B P _ _ _ _) as [t out]. cbn [fst snd] in *. subst t.
  split; [done|]. destruct rest as [|bad post].
  - destruct Hend as (its & ->). eauto.
  - destruct Hend as (e & its & Hb & ->). by do 2 eexists.
Qed.

Lemma apply_reply_reset (it : App.BatchItem) (r : ScrubResponse) :
  App.apply_reply B (App.it_id it) (Returned r) (App.reset_item it) =
    App.settled B it (Returned r).
Proof.
  unfold App.apply_reply, App.mark_done, App.mark_error, App.mark_processing, App.settled.
  destruct r; cbn; rewrite String.eqb_refl; cbn; by rewrite String.eqb_refl.
Qed.

Lemma map_apply_reply_others (id : string) (res : outcome ScrubResponse)
    (l : list App.BatchItem) :
  Forall (fun p => App.it_id p <> id) l -> map (App.apply_reply B id res) l = l.
Proof.
  induction 1 as [|p l Hp _ IH]; [done|]. cbn. by rewrite apply_reply_other, IH.
Qed.

Lemma map_mark_processing_others (id : string) (l : list App.BatchItem) :
  Forall (fun p => App.it_id p <> id) l -> map (App.mark_processing id) l = l.
Proof.
  induction 1 as [|p l Hp _ IH]; [done|]. cbn. by rewrite mark_processing_other, IH.
Qed.

Lemma settled_id (it : App.BatchItem) (res : outcome ScrubResponse) :
  App.it_id (App.settled B it res) = App.it_id it.
Proof. by destruct res as [[]|]. Qed.

Lemma settled_item_id (type : OutputType) (q : number) (it : App.BatchItem) :
  App.it_id (App.settled_item B P type q it) = App.it_id it.
Proof.
  unfold App.settled_item. destruct (App.response_for P type q it); [|done].
  apply settled_id.
Qed.

Lemma others_of_queue (it : App.BatchItem) (rest finished : list App.BatchItem) :
  NoDup (map App.it_id (it :: rest)) ->
  Forall (fun p => App.it_id p ∉ map App.it_id (it :: rest)) finished ->
  Forall (fun p => App.it_id p <> App.it_id it) finished /\
  Forall (fun p => App.it_id p <> App.it_id it) (map App.reset_item rest).
Proof.
  intros Hnodup Hfin. cbn [map] in *. apply NoDup_cons in Hnodup as [Hnew _]. split.
  - eapply Forall_impl; [exact Hfin|]. intros p Hp Heq. apply Hp.
    rewrite Heq. apply elem_of_cons. by left.
  - apply Forall_forall. intros p Hp Heq.
    change (map App.reset_item rest) with (App.reset_item <$> rest) in Hp.
    apply list_elem_of_fmap in Hp as (p0 & -> & Hp0). apply Hnew.
    change (map App.it_id rest) with (App.it_id <$> rest).
    apply list_elem_of_fmap. exists p0. by rewrite <- Heq.
Qed.

Lemma scrub_queue_step (type : OutputType) (q : number) (it : App.BatchItem)
    (rest finished : list App.BatchItem) :
  NoDup (map App.it_id (it :: rest)) ->
  Forall (fun p => App.it_id p ∉ map App.it_id (it :: rest)) finished ->
  App.readable it ->
  (App.scrub_queue B P type q (it :: rest)
     (finished ++ map App.reset_item (it :: rest))).2 =
  (App.scrub_queue B P type q rest
     ((finished ++ [App.settled_item B P type q it]) ++ map App.reset_item rest)).2 /\
  Forall (fun p => App.it_id p ∉ map App.it_id rest)
         (finished ++ [App.settled_item B P type q it]).
Proof.
  intros Hnodup Hfin [bytes Hread].
  destruct (others_of_queue it rest finished Hnodup Hfin) as [Hf Hr].
  split.
  - rewrite (scrub_queue_cons _ _ _ _ _ _ _ bytes Hread). cbn [snd map].
    destruct (scrub_returns P (App.payload type q it bytes)) as (r & Hres & _).
    unfold App.settled_item, App.response_for. rewrite Hread, Hres.
    rewrite map_app. cbn [map].
    rewrite (map_apply_reply_others _ _ finished Hf).
    rewrite (map_apply_reply_others _ _ (map App.reset_item rest) Hr).
    rewrite apply_reply_reset. by rewrite <- app_assoc.
  - cbn [map] in Hnodup. apply NoDup_cons in Hnodup as [Hnew _].
    apply Forall_app. split.
    + eapply Forall_impl; [exact Hfin|]. intros p Hp Hin. apply Hp. cbn [map].
      apply elem_of_cons. by right.
    + constructor; [|constructor]. by rewrite settled_item_id.
Qed.

Lemma scrub_queue_settles (type : OutputType) (q : number) (queue : list App.BatchItem) :
  forall finished,
    NoDup (map App.it_id queue) ->
    Forall (fun p => App.it_id p ∉ map App.it_id queue) finished ->
    Forall App.readable queue ->
    (App.scrub_queue B P type q queue (finished ++ map App.reset_item queue)).2 =
      App.Finished (finished ++ map (App.settled_item B P type q) queue).
Proof.
  induction queue as [|it rest IH]; intros finished Hnodup Hfin Hread; [done|].
  apply Forall_cons in Hread as [Hit Hrest].
  destruct (scrub_queue_step type q it rest finished Hnodup Hfin Hit) as [-> Hfin'].
  cbn [map] in Hnodup. apply NoDup_cons in Hnodup as [_ Hnodup].
  rewrite (IH _ Hnodup Hfin' Hrest). cbn [map]. by rewrite <- app_assoc.
Qed.

Lemma scrub_queue_aborts (type : OutputType) (q : number) (bad : App.BatchItem)
    (post : list App.BatchItem) (e : thrown) (pre : list App.BatchItem) :
  forall finished,
    NoDup (map App.it_id (pre ++ bad :: post)) ->
    Forall (fun p => App.it_id p ∉ map App.it_id (pre ++ bad :: post)) finished ->
    Forall App.readable pre ->
    App.file_read (App.it_file bad) = Threw e ->
    (App.scrub_queue B P type q (pre ++ bad :: post)
       (finished ++ map App.reset_item (pre ++ bad :: post))).2 =
      App.Aborted e
        (finished ++ map (App.settled_item B P type q) pre ++
         App.mark_processing (App.it_id bad) (App.reset_item bad) ::
         map App.reset_item post).
Proof.
  induction pre as [|it rest IH]; intros finished Hnodup Hfin Hread Hbad.
  - cbn [app] in *. rewrite (scrub_queue_unreadable _ _ _ _ _ _ _ e Hbad). cbn [snd map].
    destruct (others_of_queue bad post finished Hnodup Hfin) as [Hf Hr].
    rewrite map_app. cbn [map].
    by rewrite (map_mark_processing_others _ finished Hf),
               (map_mark_processing_others _ (map App.reset_item post) Hr).
  - apply Forall_cons in Hread as [Hit Hrest].
    change ((it :: rest) ++ bad :: post) with (it :: (rest ++ bad :: post)) in *.
    destruct (scrub_queue_step type q it (rest ++ bad :: post) finished Hnodup Hfin Hit)
      as [-> Hfin'].
    cbn [map] in Hnodup. apply NoDup_cons in Hnodup as [_ Hnodup].
    rewrite (IH _ Hnodup Hfin' Hrest Hbad). cbn [map app]. by rewrite <- app_assoc.
Qed.

(** X13.  Batch isolation: when the ids of the items are pairwise distinct
    and every file can be read, the item [onScrub] leaves at each position
    depends on the file at that position alone.  It is done, with the
    snapshots and the cleaned blob of its own response, when the scrub of
    its payload succeeds, and failed, with that response's message, when it
    does not; a failure of the worker on one item changes no other item. *)
Theorem onScrub_isolated (st : App.State) :
  App.items st <> [] ->
  NoDup (map App.it_id (App.items st)) ->
  Forall App.readable (App.items st) ->
  exists t st',
    App.onScrub B (Some P) st = (t, App.Finished st') /\
    App.items st' =
      map (App.settled_item B P (App.outputType st) (App.quality st)) (App.items st) /\
    Forall2 (fun it p =>
               exists bytes r,
                 App.file_read (App.it_file it) = Returned bytes /\
                 result (scrub P (App.payload (App.outputType st) (App.quality st)
                                    it bytes)) = Returned r /\
                 p = App.settled B it (Returned r) /\
                 (App.status p = App.Done <-> resp_ok r = true) /\
                 (App.status p = App.Error <-> resp_ok r = false))
            (App.items st) (App.items st').
Proof.
  intros Hne Hnodup Hread. unfold App.onScrub, App.resetOutputs.
  destruct (App.items st) as [|it0 rest0] eqn:Hitems; [done|]. rewrite <- Hitems in *.
  pose proof (scrub_queue_settles (App.outputType st) (App.quality st) (App.items st)
                [] Hnodup (Forall_nil_2 _) Hread) as Hq.
  cbn [App.items app] in *.
  destruct (App.scrub_queue B P _ _ _ _) as [t out]. cbn [snd] in Hq. subst out.
  do 2 eexists. split; [reflexivity|]. cbn [App.items]. split; [done|].
  clear Hitems Hne Hnodup. induction Hread as [|it rest [bytes Hb] _ IH]; [constructor|].
  cbn [map]. constructor; [|exact IH].
  destruct (scrub_returns P (App.payload (App.outputType st) (App.quality st) it bytes))
    as (r & Hr & _).
  exists bytes, r. unfold App.settled_item, App.response_for. rewrite Hb, Hr.
  repeat split; try done; destruct r; cbn; done.
Qed.

(** X23.  A file that cannot be read stops the batch: with pairwise
    distinct ids, when the files before it can be read and its own read is
    rejected, [onScrub] is left by that rejection.  The items before it are
    then settled as usual, the item itself is still [processing], the items
    after it are [pending], [busy] is still on, and nothing was sent to the
    worker for the unreadable file or for any later one. *)
Theorem onScrub_unreadable_file (st : App.State) (pre post : list App.BatchItem)
    (bad : App.BatchItem) (e : thrown) :
  App.items st = pre ++ bad :: post ->
  NoDup (map App.it_id (App.items st)) ->
  Forall App.readable pre ->
  App.file_read (App.it_file bad) = Threw e ->
  exists st',
    App.onScrub B (Some P) st =
      (map App.UiRevoke (App.cleaned_urls (App.items st)) ++
       flat_map (App.item_events P (App.outputType st) (App.quality st)) pre,
       App.Aborted e st') /\
    App.busy st' = true /\
    App.items st' =
      map (App.settled_item B P (App.outputType st) (App.quality st)) pre ++
      App.mark_processing (App.it_id bad) (App.reset_item bad) ::
      map App.reset_item post /\
    App.status (App.mark_processing (App.it_id bad) (App.reset_item bad)) = App.Processing /\
    Forall (fun p => App.status p = App.Pending) (map App.reset_item post).
Proof.
  intros Hitems Hnodup Hread Hbad. unfold App.onScrub, App.resetOutputs.
  destruct (App.items st) as [|it0 rest0] eqn:Hst; [by destruct pre|].
  rewrite <- Hst in *. cbn [App.items].
  rewrite Hitems in Hnodup.
  pose proof (scrub_queue_aborts (App.outputType st) (App.quality st) bad post e pre
                [] Hnodup (Forall_nil_2 _) Hread Hbad) as Hq.
  pose proof (scrub_queue_events B P (App.outputType st) (App.quality st) (App.items st)
                (map App.reset_item (App.items st))) as Hev.
  assert (Hprefix : App.readable_prefix (pre ++ bad :: post) = pre).
  { clear -Hread Hbad. induction Hread as [|it rest [bytes Hb] _ IH]; cbn.
    - by rewrite Hbad.
    - by rewrite Hb, IH. }
  rewrite Hitems in Hev |- *. rewrite Hprefix in Hev. cbn [app] in Hq.
  destruct (App.scrub_queue B P _ _ _ _) as [t out]. cbn [fst snd] in *. subst t out.
  eexists. split; [reflexivity|]. cbn [App.busy App.items].
  split; [done|]. split; [done|]. split.
  - unfold App.mark_processing. cbn. by rewrite String.eqb_refl.
  - apply Forall_forall. intros p Hp.
    change (map App.reset_item post) with (App.reset_item <$> post) in Hp.
    by apply list_elem_of_fmap in Hp as (p0 & -> & _).
Qed.

End OrchestratorClaims.

Section PageFacts.

Lemma bfilter_sublist {A : Type} (f : A -> bool) (l : list A) :
  List.filter f l `sublist_of` l.
Proof.
  induction l as [|x l IH]; cbn; [constructor|].
  destruct (f x); by constructor.
Qed.

Lemma elem_of_bfilter {A : Type} (f : A -> bool) (l : list A) (x : A) :
  x ∈ List.filter f l <-> x ∈ l /\ f x = true.
Proof. rewrite !list_elem_of_In. apply filter_In. Qed.

Lemma interesting_NoDup : NoDup App.interesting.
Proof. apply (bool_decide_unpack _). by vm_compute. Qed.

Lemma keyHighlights_cases (keys : list string) :
  keys <> [] ->
  let picked := List.filter (fun k => bool_decide (k ∈ keys)) App.interesting in
  (picked = [] /\ App.keyHighlights (Some keys) = take 12 keys) \/
  (picked <> [] /\ App.keyHighlights (Some keys) = picked).
Proof.
  intros Hne picked. unfold App.keyHighlights. destruct keys as [|k keys]; [done|].
  fold picked. destruct picked; [left | right]; done.
Qed.

(** X14.  [keyHighlights] shows at most twelve keys, each of them one of the
    keys it was given and none twice when the given keys hold no
    duplicate; it shows nothing only when there is no key at all. *)
Theorem keyHighlights_bounds (keys : option (list string)) :
  (length (App.keyHighlights keys) <= 12)%nat /\
  (forall k, k ∈ App.keyHighlights keys -> exists ks, keys = Some ks /\ k ∈ ks) /\
  (App.keyHighlights keys = [] <-> keys = None \/ keys = Some []) /\
  (forall ks, keys = Some ks -> NoDup ks -> NoDup (App.keyHighlights keys)).
Proof.
  destruct keys as [ks|].
  2:{ cbn. split; [lia|]. split; [by intros k ?%elem_of_nil|].
      split; [split; auto|]. done. }
  destruct (decide (ks = [])) as [->|Hne].
  { cbn. split; [lia|]. split; [by intros k ?%elem_of_nil|].
    split; [split; auto|]. intros ks _ _. constructor. }
  destruct (keyHighlights_cases ks Hne) as [[Hnone ->] | [Hsome ->]].
  - split; [apply firstn_le_length|]. split; [|split].
    + intros k Hk. exists ks. split; [done|].
      eapply elem_of_sublist; [done|apply sublist_take].
    + split; [|by intros [?|[= ?]]]. intros Hnil. by destruct ks.
    + intros ks' [= <-] Hnd. eapply sublist_NoDup; [done|apply sublist_take].
  - split; [|split; [|split]].
    + etrans; [apply filter_length_le|]. cbn [App.interesting length]. lia.
    + intros k Hk. exists ks. split; [done|].
      apply elem_of_bfilter in Hk as [_ Hk]. by apply bool_decide_eq_true in Hk.
    + split; [done|]. by intros [?|[= ?]].
    + intros ks' _ _. eapply sublist_NoDup; [apply interesting_NoDup|].
      apply bfilter_sublist.
Qed.

(** X15.  As soon as one of the eleven highlighted tag names is among the
    keys, [keyHighlights] shows exactly the highlighted names that are
    present, in the fixed order of the table, and no other key, wherever
    they stand in the list. *)
Theorem keyHighlights_priority (keys : list string) (name : string) :
  name ∈ App.interesting -> name ∈ keys ->
  App.keyHighlights (Some keys) `sublist_of` App.interesting /\
  (forall k, k ∈ App.keyHighlights (Some keys) <-> k ∈ App.interesting /\ k ∈ keys).
Proof.
  intros Hint Hkey.
  assert (Hne : keys <> []) by (intros ->; by apply elem_of_nil in Hkey).
  destruct (keyHighlights_cases keys Hne) as [[Hnone _] | [_ ->]].
  - exfalso. assert (Hin : name ∈ List.filter (fun k => bool_decide (k ∈ keys)) App.interesting).
    { apply elem_of_bfilter. split; [done|]. by apply bool_decide_eq_true. }
    rewrite Hnone in Hin. by apply elem_of_nil in Hin.
  - split; [apply bfilter_sublist|]. intros k. rewrite elem_of_bfilter.
    by rewrite bool_decide_eq_true.
Qed.

(** X16.  [resetOutputs] returns every item to [pending] with no error, no
    snapshot and no cleaned file, keeps the ids, files and original URLs in
    place, clears [error], and revokes the non-empty cleaned URLs the items
    had; a second reset changes nothing and revokes nothing. *)
Theorem resetOutputs_clears (st : App.State) :
  let st' := (App.resetOutputs st).2 in
  Forall (fun p => App.status p = App.Pending /\ App.it_error p = None /\
                   App.it_before p = None /\ App.it_after p = None /\
                   App.cleanedBlob p = None /\ App.cleanedUrl p = None)
         (App.items st') /\
  map App.it_id (App.items st') = map App.it_id (App.items st) /\
  map App.it_file (App.items st') = map App.it_file (App.items st) /\
  map App.originalUrl (App.items st') = map App.originalUrl (App.items st) /\
  App.error st' = None /\ App.busy st' = App.busy st /\
  App.cleanedCount (App.items st') = 0%nat /\
  App.processedCount (App.items st') = 0%nat /\
  (forall u, App.UiRevoke u ∈ (App.resetOutputs st).1 <->
             u <> "" /\ exists p, p ∈ App.items st /\ App.cleanedUrl p = Some u) /\
  App.resetOutputs st' = ([], st').
Proof.
  cbn [App.resetOutputs fst snd App.items App.error App.busy].
  rewrite !map_map. cbn [App.reset_item App.it_id App.it_file App.originalUrl].
  split; [|split; [done|split; [done|split; [done|split; [done|split; [done|]]]]]].
  { apply Forall_forall. intros p Hp.
    change (map App.reset_item (App.items st)) with (App.reset_item <$> App.items st) in Hp.
    by apply list_elem_of_fmap in Hp as (p0 & -> & _). }
  split; [|split; [|split]].
  - unfold App.cleanedCount. by induction (App.items st).
  - unfold App.processedCount. by induction (App.items st).
  - intros u. unfold App.cleaned_urls.
    change (map App.UiRevoke ?l) with (App.UiRevoke <$> l).
    rewrite list_elem_of_fmap. split.
    + intros (u' & [= <-] & Hin). apply list_elem_of_In, in_flat_map in Hin as (p & Hp & Hu).
      apply list_elem_of_In in Hp.
      destruct (App.cleanedUrl p) as [w|] eqn:Hw; cbn in Hu; [|done].
      destruct (String.eqb_spec w "") as [->|Hnw]; cbn in Hu; [done|].
      destruct Hu as [<-|[]]. eauto.
    + intros (Hnu & p & Hp & Hw). exists u. split; [done|].
      apply list_elem_of_In, in_flat_map. exists p. split; [by apply list_elem_of_In|].
      rewrite Hw. cbn. apply String.eqb_neq in Hnu. rewrite Hnu. cbn. auto.
  - unfold App.resetOutputs. cbn [App.items App.outputType App.quality App.busy App.error].
    f_equal.
    + unfold App.cleaned_urls. by induction (App.items st).
    + f_equal. rewrite map_map. by apply map_ext.
Qed.


Lemma snapshot_keys_hasExif (bytes : list Z) (parse : outcome jsval) :
  exifKeys (snapshot bytes parse) <> [] -> hasExif (snapshot bytes parse) = true.
Proof.
  destruct parse as [parsed|e]; cbn; [|done].
  destruct (truthy parsed && typeof_object parsed); cbn; [|done].
  destruct (js_sort (Object_keys parsed)); [done|]. intros _. apply orb_true_r.
Qed.

Lemma snapshot_without_exif (bytes : list Z) (parse : outcome jsval) :
  hasExif (snapshot bytes parse) = false ->
  exifKeys (snapshot bytes parse) = [] /\ gps (snapshot bytes parse) = None /\
  dateTimeOriginal (snapshot bytes parse) = JUndefined /\
  make (snapshot bytes parse) = JUndefined /\
  model (snapshot bytes parse) = JUndefined /\
  software (snapshot bytes parse) = JUndefined.
Proof.
  intros Hno.
  assert (Hpop : ~ populated (snapshot bytes parse)).
  { intros [_ Hyes]%snapshot_populated_keys. congruence. }
  assert (Hkeys : exifKeys (snapshot bytes parse) = []).
  { destruct (exifKeys (snapshot bytes parse)) eqn:Hk; [done|].
    assert (exifKeys (snapshot bytes parse) <> []) as Hyes%snapshot_keys_hasExif
      by (by rewrite Hk).
    congruence. }
  unfold populated in Hpop. split; [done|].
  split; [destruct (gps _); [exfalso; apply Hpop; left; eauto|done]|].
  repeat split.
  - destruct (dateTimeOriginal _); try done; exfalso; apply Hpop; auto.
  - destruct (make _); try done; exfalso; apply Hpop; auto.
  - destruct (model _); try done; exfalso; apply Hpop; auto 6.
  - destruct (software _); try done; exfalso; apply Hpop; auto 6.
Qed.

(** X18.  The badge and the findings agree on snapshots made by the worker:
    when the badge of an item reads [Clean], the seven findings built from
    its [after] snapshot all carry the calm chip and no value. *)
Theorem clean_badge_no_findings (F : App.Formatting) (P : Platform) (bytes : list Z)
    (it : App.BatchItem) (v : Verification) :
  result (verifyDeep P bytes) = Returned v ->
  App.it_after it = Some v ->
  App.text (App.badgeFor it) = "Clean" ->
  map App.f_key (App.buildFindings F (Some v)) =
    ["gps"; "time"; "device"; "software"; "exif"; "xmp"; "iptc"] /\
  Forall (fun f => App.f_cls f = App.chipOk /\ truthy (App.f_value f) = false)
         (App.buildFindings F (Some v)).
Proof.
  rewrite verifyDeep_eq. cbn [result snd]. intros [= <-] Hafter Hbadge.
  split; [done|].
  unfold App.badgeFor in Hbadge. rewrite Hafter in Hbadge.
  destruct (App.status it); try done.
  destruct (hasExif _) eqn:Hexif; [done|].
  destruct (hasXmp _) eqn:Hxmp; [done|].
  destruct (hasIptc _) eqn:Hiptc; [done|].
  destruct (snapshot_without_exif _ _ Hexif) as (Hk & Hg & Hd & Hm & Hmo & Hs).
  unfold App.buildFindings. rewrite Hk, Hg, Hd, Hm, Hmo, Hs, Hxmp, Hiptc.
  repeat constructor.
Qed.

Lemma no_dot_with_dot (a b : string) : App.no_dot (a +:+ "." +:+ b) = false.
Proof.
  induction a as [|c a IH]; [done|].
  change (String c a +:+ "." +:+ b) with (String c (a +:+ "." +:+ b)).
  cbn [App.no_dot]. rewrite IH. apply andb_false_r.
Qed.

Lemma strip_ext_last (stem e : string) :
  e <> "" -> App.no_dot e = true -> App.strip_ext (stem +:+ "." +:+ e) = stem.
Proof.
  intros He Hdot. induction stem as [|c stem IH].
  - change ("" +:+ "." +:+ e) with (String "." e). cbn [App.strip_ext].
    apply String.eqb_neq in He. by rewrite He, Hdot.
  - change (String c stem +:+ "." +:+ e) with (String c (stem +:+ "." +:+ e)).
    cbn [App.strip_ext]. rewrite no_dot_with_dot, !andb_false_r. by rewrite IH.
Qed.

Lemma strip_ext_is_prefix (s : string) : exists rest, s = App.strip_ext s +:+ rest.
Proof.
  induction s as [|c s [rest IH]]; [by exists ""|]. cbn [App.strip_ext].
  destruct (_ && _ && _).
  - by exists (String c s).
  - exists rest. change (String c (App.strip_ext s) +:+ rest)
      with (String c (App.strip_ext s +:+ rest)). by rewrite <- IH.
Qed.

Lemma no_dot_dotless (s : string) : App.no_dot s = true <-> App.dotless s.
Proof.
  unfold App.dotless. split.
  - intros Hno a b ->. by rewrite no_dot_with_dot in Hno.
  - induction s as [|c s IH]; intros Hdot; [done|]. cbn [App.no_dot].
    apply andb_true_iff. split.
    + apply negb_true_iff. destruct (Ascii.eqb_spec c "."); [|done].
      subst c. by destruct (Hdot "" s).
    + apply IH. intros a b ->. by destruct (Hdot (String c a) b).
Qed.

Lemma strip_ext_none (s : string) :
  (forall stem e, s = stem +:+ "." +:+ e -> e <> "" -> App.dotless e -> False) ->
  App.strip_ext s = s.
Proof.
  induction s as [|c s IH]; intros Hnone; [done|]. cbn [App.strip_ext].
  destruct (Ascii.eqb c "." && negb (String.eqb s "") && App.no_dot s) eqn:Htest.
  - apply andb_true_iff in Htest as [[Hc Hs]%andb_true_iff Hd].
    apply Ascii.eqb_eq in Hc. subst c.
    apply negb_true_iff, String.eqb_neq in Hs. apply no_dot_dotless in Hd.
    by destruct (Hnone "" s).
  - f_equal. apply IH. intros stem e -> He Hd.
    by apply (Hnone (String c stem) e).
Qed.

(** X19.  The name under which a cleaned file is offered is a non-empty
    base, [.clean.] and an extension.  The base is the file's name cut
    before its last extension: for a name that is a stem, a dot and a
    non-empty extension without a dot, it is the stem; for any other name
    it is the whole name; and [image] stands in for an empty stem or
    name only.  The extension is [png] or [webp] when the blob's type says
    so and [jpg] for every other type. *)
Theorem download_name_shape (name : string) (blob : Blob) :
  exists base ext,
    App.download_name name blob = base +:+ ".clean." +:+ ext /\
    base <> "" /\
    (base = "image" \/ exists rest, name = base +:+ rest) /\
    (blob_type blob = "image/png" /\ ext = "png" \/
     blob_type blob <> "image/png" /\ blob_type blob = "image/webp" /\ ext = "webp" \/
     blob_type blob <> "image/png" /\ blob_type blob <> "image/webp" /\ ext = "jpg") /\
    (forall stem e,
       name = stem +:+ "." +:+ e -> e <> "" -> App.dotless e ->
       base = if String.eqb stem "" then "image" else stem) /\
    ((forall stem e, name = stem +:+ "." +:+ e -> e <> "" -> App.dotless e -> False) ->
     base = if String.eqb name "" then "image" else name).
Proof.
  unfold App.download_name, App.ext_of. do 2 eexists. split; [reflexivity|].
  split; [|split; [|split; [|split]]].
  - destruct (String.eqb_spec (App.strip_ext name) ""); done.
  - destruct (String.eqb_spec (App.strip_ext name) ""); [by left|].
    right. apply strip_ext_is_prefix.
  - destruct (String.eqb_spec (blob_type blob) "image/png"); [by left|].
    destruct (String.eqb_spec (blob_type blob) "image/webp"); auto.
  - intros stem e -> He Hd. apply no_dot_dotless in Hd. by rewrite strip_ext_last.
  - intros Hnone. by rewrite strip_ext_none.
Qed.

(** X20.  Two files whose names differ only in their last extension get the
    same download name when their cleaned blobs have the same kind of type,
    so in the archive of [downloadZip] they are written under one name. *)
Theorem download_name_collision (stem e1 e2 : string) (b1 b2 : Blob) :
  e1 <> "" -> e2 <> "" -> App.no_dot e1 = true -> App.no_dot e2 = true ->
  App.ext_of b1 = App.ext_of b2 ->
  App.download_name (stem +:+ "." +:+ e1) b1 = App.download_name (stem +:+ "." +:+ e2) b2.
Proof.
  intros He1 He2 Hd1 Hd2 Hext. unfold App.download_name.
  by rewrite !strip_ext_last, Hext.
Qed.

Lemma cleaned_has_blob (p : App.BatchItem) :
  App.is_cleaned p = true ->
  App.status p = App.Done /\ exists blob, App.cleanedBlob p = Some blob.
Proof. unfold App.is_cleaned. destruct (App.status p), (App.cleanedBlob p); eauto; done. Qed.

(** X21.  [downloadZip] creates no archive when no item is both done and
    has a cleaned blob; otherwise it adds one entry for each such item, in
    the order of the list, named by the item's download name and holding
    the bytes of its cleaned blob. *)
Theorem downloadZip_entries (its : list App.BatchItem) :
  match App.downloadZip its with
  | None => App.cleanedCount its = 0%nat
  | Some entries =>
      App.cleanedCount its <> 0%nat /\
      length entries = App.cleanedCount its /\
      Forall2 (fun p e =>
                 App.status p = App.Done /\
                 exists blob, App.cleanedBlob p = Some blob /\
                   e = (App.download_name (App.file_name (App.it_file p)) blob,
                        blob_bytes blob))
              (List.filter App.is_cleaned its) entries
  end.
Proof.
  unfold App.downloadZip, App.cleanedCount.
  assert (Hall : Forall (fun p => App.is_cleaned p = true) (List.filter App.is_cleaned its)).
  { apply Forall_forall. intros p Hp. by apply elem_of_bfilter in Hp as [_ ?]. }
  assert (Hrel : Forall2 (fun p e =>
                 App.status p = App.Done /\
                 exists blob, App.cleanedBlob p = Some blob /\
                   e = (App.download_name (App.file_name (App.it_file p)) blob,
                        blob_bytes blob))
              (List.filter App.is_cleaned its)
              (flat_map (fun it => match App.cleanedBlob it with
                                   | Some blob =>
                                       [(App.download_name (App.file_name (App.it_file it)) blob,
                                         blob_bytes blob)]
                                   | None => []
                                   end) (List.filter App.is_cleaned its))).
  { induction Hall as [|p l Hp _ IH]; [constructor|].
    apply cleaned_has_blob in Hp as [Hst [blob Hb]]. cbn [flat_map]. rewrite Hb.
    constructor; [eauto|done]. }
  destruct (List.filter App.is_cleaned its) as [|p0 others]; [done|].
  split; [done|]. split; [|done]. symmetry. by apply Forall2_length in Hrel.
Qed.

End PageFacts.

(** Runs of the page on the sample desk. *)

Example onScrub_desk_statuses :
  match (App.onScrub Desk.browser (Some Sample.platform) Desk.state).2 with
  | App.Finished st => map App.status (App.items st) = [App.Done; App.Error; App.Done]
  | _ => False
  end.
Proof. by vm_compute. Qed.

Example onScrub_desk_error :
  match (App.onScrub Desk.browser (Some Sample.platform) Desk.state).2 with
  | App.Finished st =>
      map App.it_error (App.items st) =
        [None; Some "HEIC decode failed: no images found"; None]
  | _ => False
  end.
Proof. by vm_compute. Qed.

Example onScrub_desk_unreadable :
  match (App.onScrub Desk.browser (Some Sample.platform) Desk.state_unreadable).2 with
  | App.Aborted e st =>
      e = ThrownError "NotReadableError" /\ App.busy st = true /\
      map App.status (App.items st) = [App.Done; App.Processing; App.Pending]
  | _ => False
  end.
Proof. by vm_compute. Qed.

Example onScrub_without_worker :
  match (App.onScrub Desk.browser None Desk.state).2 with
  | App.Finished st => App.error st = Some "Worker not initialized"
  | _ => False
  end.
Proof. reflexivity. Qed.

Example strip_ext_examples :
  App.strip_ext "photo.tar.gz" = "photo.tar" /\ App.strip_ext "photo" = "photo" /\
  App.strip_ext "photo." = "photo." /\ App.strip_ext ".hidden" = "".
Proof. by vm_compute. Qed.

Example download_name_hidden :
  App.download_name ".hidden" {| blob_bytes := []; blob_type := "image/webp" |}
  = "image.clean.webp".
Proof. reflexivity. Qed.

Example keyHighlights_example :
  App.keyHighlights (Some ["Orientation"; "Model"; "XResolution"; "Make"]) = ["Make"; "Model"].
Proof. by vm_compute. Qed.

Lemma desk_readable : Forall App.readable (App.items Desk.state).
Proof. repeat constructor; by eexists. Qed.

Lemma desk_nodup : NoDup (map App.it_id (App.items Desk.state)).
Proof. apply (bool_decide_unpack _). by vm_compute. Qed.

Lemma onScrub_completes_witness :
  App.items Desk.state <> [] /\ Forall App.readable (App.items Desk.state) /\
  exists t st',
    App.onScrub Desk.browser (Some Sample.platform) Desk.state = (t, App.Finished st') /\
    App.busy st' = false /\ App.error st' = None /\
    App.outputType st' = App.outputType Desk.state /\
    App.quality st' = App.quality Desk.state /\
    map App.it_id (App.items st') = map App.it_id (App.items Desk.state) /\
    map App.it_file (App.items st') = map App.it_file (App.items Desk.state) /\
    map App.originalUrl (App.items st') = map App.originalUrl (App.items Desk.state) /\
    Forall (fun p => App.status p = App.Done \/ App.status p = App.Error) (App.items st') /\
    App.processedCount (App.items st') = length (App.items Desk.state).
Proof.
  split; [done|]. split; [exact desk_readable|].
  apply (onScrub_completes Desk.browser Sample.platform Desk.state);
    [done | exact desk_readable].
Defined.

Lemma onScrub_sequential_witness :
  let st := Desk.state_unreadable in
  App.items st <> [] /\
  exists handled rest,
    App.items st = handled ++ rest /\
    Forall App.readable handled /\
    (App.onScrub Desk.browser (Some Sample.platform) st).1 =
      map App.UiRevoke (App.cleaned_urls (App.items st)) ++
      flat_map (App.item_events Sample.platform (App.outputType st) (App.quality st))
               handled /\
    match rest with
    | [] => exists st',
        (App.onScrub Desk.browser (Some Sample.platform) st).2 = App.Finished st'
    | bad :: _ =>
        exists e st',
          App.file_read (App.it_file bad) = Threw e /\
          (App.onScrub Desk.browser (Some Sample.platform) st).2 = App.Aborted e st' /\
          App.busy st' = true
    end.
Proof.
  intros st. split; [done|].
  apply (onScrub_sequential Desk.browser Sample.platform st). done.
Defined.

Lemma onScrub_isolated_witness :
  App.items Desk.state <> [] /\ NoDup (map App.it_id (App.items Desk.state)) /\
  Forall App.readable (App.items Desk.state) /\
  exists t st',
    App.onScrub Desk.browser (Some Sample.platform) Desk.state = (t, App.Finished st') /\
    App.items st' =
      map (App.settled_item Desk.browser Sample.platform (App.outputType Desk.state)
             (App.quality Desk.state)) (App.items Desk.state) /\
    Forall2 (fun it p =>
               exists bytes r,
                 App.file_read (App.it_file it) = Returned bytes /\
                 result (scrub Sample.platform
                           (App.payload (App.outputType Desk.state)
                              (App.quality Desk.state) it bytes)) = Returned r /\
                 p = App.settled Desk.browser it (Returned r) /\
                 (App.status p = App.Done <-> resp_ok r = true) /\
                 (App.status p = App.Error <-> resp_ok r = false))
            (App.items Desk.state) (App.items st').
Proof.
  split; [done|]. split; [exact desk_nodup|]. split; [exact desk_readable|].
  apply (onScrub_isolated Desk.browser Sample.platform Desk.state);
    [done | exact desk_nodup | exact desk_readable].
Defined.

Lemma onScrub_unreadable_file_witness :
  let st := Desk.state_unreadable in
  let pre := [Desk.item "1" "beach.jpg" "image/jpeg"] in
  let post := [Desk.item "3" "dunes.png" "image/png"] in
  exists st',
    App.onScrub Desk.browser (Some Sample.platform) st =
      (map App.UiRevoke (App.cleaned_urls (App.items st)) ++
       flat_map (App.item_events Sample.platform (App.outputType st) (App.quality st)) pre,
       App.Aborted (ThrownError "NotReadableError") st') /\
    App.busy st' = true /\
    App.items st' =
      map (App.settled_item Desk.browser Sample.platform (App.outputType st)
             (App.quality st)) pre ++
      App.mark_processing (App.it_id Desk.unreadable) (App.reset_item Desk.unreadable) ::
      map App.reset_item post /\
    App.status (App.mark_processing (App.it_id Desk.unreadable)
                  (App.reset_item Desk.unreadable)) = App.Processing /\
    Forall (fun p => App.status p = App.Pending) (map App.reset_item post).
Proof.
  intros st pre post.
  apply (onScrub_unreadable_file Desk.browser Sample.platform st pre post Desk.unreadable
           (ThrownError "NotReadableError")).
  - reflexivity.
  - apply (bool_decide_unpack _). by vm_compute.
  - repeat constructor. by eexists.
  - reflexivity.
Defined.

Lemma keyHighlights_priority_witness :
  "Make" ∈ App.interesting /\ "Make" ∈ ["Orientation"; "Make"] /\
  App.keyHighlights (Some ["Orientation"; "Make"]) `sublist_of` App.interesting /\
  (forall k, k ∈ App.keyHighlights (Some ["Orientation"; "Make"]) <->
             k ∈ App.interesting /\ k ∈ ["Orientation"; "Make"]).
Proof.
  assert (H1 : "Make" ∈ App.interesting) by (apply (bool_decide_unpack _); by vm_compute).
  assert (H2 : "Make" ∈ ["Orientation"; "Make"])
    by (apply (bool_decide_unpack _); by vm_compute).
  split; [exact H1|]. split; [exact H2|].
  exact (keyHighlights_priority ["Orientation"; "Make"] "Make" H1 H2).
Defined.

Lemma clean_badge_no_findings_witness :
  result (verifyDeep Sample.platform []) = Returned (verify []) /\
  App.it_after Desk.clean_item = Some (verify []) /\
  App.text (App.badgeFor Desk.clean_item) = "Clean" /\
  map App.f_key (App.buildFindings Desk.formatting (Some (verify []))) =
    ["gps"; "time"; "device"; "software"; "exif"; "xmp"; "iptc"] /\
  Forall (fun f => App.f_cls f = App.chipOk /\ truthy (App.f_value f) = false)
         (App.buildFindings Desk.formatting (Some (verify []))).
Proof.
  split; [reflexivity|]. split; [reflexivity|]. split; [reflexivity|].
  apply (clean_badge_no_findings Desk.formatting Sample.platform [] Desk.clean_item
           (verify [])); reflexivity.
Defined.

Lemma download_name_collision_witness :
  App.download_name ("beach" +:+ "." +:+ "jpg") {| blob_bytes := [1]; blob_type := "image/jpeg" |} =
  App.download_name ("beach" +:+ "." +:+ "png") {| blob_bytes := [2]; blob_type := "image/jpeg" |}.
Proof.
  apply (download_name_collision "beach" "jpg" "png"); done.
Defined.
